(** * Lesion detection pipeline: execution and memoisation engine

    A shallow embedding of [lesionpypeline/pipeline.py]: the pipeline
    driver [execute_pipeline], the class [PipelineContext] with its
    selection helpers and stage methods, and the two configuration
    checks.  Python objects that are mutated in place (the dictionary of
    sequence paths) live in an explicit heap; the file system, the cache
    of the memoised invoker, the log and the list of external tool
    executions are components of one [world] that every statement
    threads through a state-and-exception monad.

    Conventions of the model.  A loop over the keys of a dictionary
    visits them in the order of [elements]; Python leaves the order
    open.  Paths are plain strings and the file system is a finite map
    from paths to nodes; the external tools are a function from their
    keyword arguments to named output paths and do not touch this map.
    An exception keeps the changes made before it was raised. *)

From Stdlib Require Import String Ascii.
From stdpp Require Import gmap strings list fin_maps.

(** ** Python values, exceptions and results *)

(** The values that flow through the driver: paths are [str], the local
    [transform] is compared against [None], and one branch of the driver
    stores the 2-tuple returned by [register]. *)
Inductive pyval :=
| PyNone
| PyStr (s : string)
| PyTuple (a b : pyval).

Global Instance pyval_eq_dec : EqDecision pyval.
Proof. solve_decision. Defined.

(** Keyword-argument values handed to an external tool interface. *)
Inductive param :=
| ArgVal (v : pyval)
| ArgBool (b : bool)
| ArgList (l : list pyval)
| ArgDict (d : gmap string pyval).

Global Instance param_eq_dec : EqDecision param.
Proof. solve_decision. Defined.

(** The nipype interfaces the context wraps. *)
Inductive operation :=
| MedpyResample
| Registration
| ApplyWarp
| BET
| ApplyMask
| MRBias
| NiftiModifyMetadata
| MedpyIntensityRangeStandardization
| CondenseOutliers
| ExtractFeatures
| ApplyRdf.

Global Instance operation_eq_dec : EqDecision operation.
Proof. solve_decision. Defined.

Inductive exn :=
| ValueError (msg : string)
| RuntimeError (msg : string)
| KeyError (key : string)
| UnboundLocalError (name : string)
| AttributeError (name : string)
| TypeError
| OSError (path : string)
| NoOptionError (section option : string)
| InvalidReference
| ExternalToolError (op : operation).

Inductive result (A : Type) :=
| Ok (a : A)
| Raise (e : exn).
Arguments Ok {A} a.
Arguments Raise {A} e.

(** ** String helpers: [str.split(',')], [str.strip], [sep.join], list repr *)

Module Str.

(** [s.split(',')]: every comma separates, empty fields are kept. *)
Fixpoint split_comma (s : string) : list string :=
  match s with
  | EmptyString => [EmptyString]
  | String c rest =>
      if Ascii.eqb c ","%char then EmptyString :: split_comma rest
      else match split_comma rest with
           | [] => [String c EmptyString]
           | w :: ws => String c w :: ws
           end
  end.

(** Python's ASCII whitespace: tab, LF, VT, FF, CR and space. *)
Definition is_space (c : ascii) : bool :=
  let n := nat_of_ascii c in
  (Nat.leb 9 n && Nat.leb n 13) || Nat.eqb n 32.

Fixpoint lstrip (s : string) : string :=
  match s with
  | EmptyString => EmptyString
  | String c rest => if is_space c then lstrip rest else s
  end.

Fixpoint rstrip (s : string) : string :=
  match s with
  | EmptyString => EmptyString
  | String c rest =>
      match rstrip rest with
      | EmptyString => if is_space c then EmptyString else String c EmptyString
      | r => String c r
      end
  end.

Definition strip (s : string) : string := rstrip (lstrip s).

(** [sep.join(l)] *)
Fixpoint join (sep : string) (l : list string) : string :=
  match l with
  | [] => EmptyString
  | [x] => x
  | x :: xs => x +:+ sep +:+ join sep xs
  end.

(** ['{}'.format(l)] for a list of plain identifiers: ['a', 'b']. *)
Definition repr_list (l : list string) : string :=
  "[" +:+ join ", " (map (fun s => "'" +:+ s +:+ "'") l) +:+ "]".

Fixpoint startswith (p s : string) : bool :=
  match p, s with
  | EmptyString, _ => true
  | String a p', String b s' => Ascii.eqb a b && startswith p' s'
  | String _ _, EmptyString => false
  end.

Fixpoint endswith_char (c : ascii) (s : string) : bool :=
  match s with
  | EmptyString => false
  | String a EmptyString => Ascii.eqb a c
  | String _ rest => endswith_char c rest
  end.

End Str.

(** [os.path.join(a, b)] of [posixpath], for two components. *)
Definition os_path_join (a b : string) : string :=
  if Str.startswith "/" b then b
  else if bool_decide (a = EmptyString) || Str.endswith_char "/"%char a then a +:+ b
  else a +:+ "/" +:+ b.

(** ** The world: heap, file system, cache, logs *)

Inductive node :=
| Regular
| Directory
| Symlink (target : string).

Global Instance node_eq_dec : EqDecision node.
Proof. solve_decision. Defined.

(** File-system calls that change the tree, in the order they were made. *)
Inductive fs_event :=
| EvMakedirs (path : string)
| EvRemove (path : string)
| EvSymlink (target path : string).

Global Instance fs_event_eq_dec : EqDecision fs_event.
Proof. solve_decision. Defined.

Inductive level := INFO | WARNING.

(** Named output file paths of one external tool run. *)
Abbreviation outputs := (gmap string string).
Abbreviation kwargs := (gmap string param).
Abbreviation dict := (gmap string pyval).

(** The Invocation Key: the cache directory of the [Memory] object, the
    interface, and the full keyword-argument mapping. *)
Definition invocation_key : Type := string * operation * kwargs.

Record world := World {
  heap : gmap nat dict;
  fs : gmap string node;
  cache_store : list (invocation_key * outputs);
  executed : list (operation * kwargs);
  syscalls : list fs_event;
  logged : list (level * string)
}.

Definition set_heap (h : gmap nat dict) (w : world) : world :=
  World h (fs w) (cache_store w) (executed w) (syscalls w) (logged w).

Definition set_fs (t : gmap string node) (ev : fs_event) (w : world) : world :=
  World (heap w) t (cache_store w) (executed w) (syscalls w ++ [ev]) (logged w).

Definition add_log (l : level) (msg : string) (w : world) : world :=
  World (heap w) (fs w) (cache_store w) (executed w) (syscalls w) (logged w ++ [(l, msg)]).

Definition add_executed (op : operation) (ps : kwargs) (w : world) : world :=
  World (heap w) (fs w) (cache_store w) (executed w ++ [(op, ps)]) (syscalls w) (logged w).

Definition add_cache_entry (k : invocation_key) (o : outputs) (w : world) : world :=
  World (heap w) (fs w) ((k, o) :: cache_store w) (executed w) (syscalls w) (logged w).

(** ** The state-and-exception monad *)

Definition M (A : Type) : Type := world → result A * world.

Global Instance M_ret : MRet M := λ A a w, (Ok a, w).

Global Instance M_bind : MBind M := λ A B f m w,
  match m w with
  | (Ok a, w') => f a w'
  | (Raise e, w') => (Raise e, w')
  end.

Definition raise {A} (e : exn) : M A := λ w, (Raise e, w).

Definition lift_result {A} (r : result A) : M A := λ w, (r, w).

(** [for x in l: body(x)] *)
Fixpoint for_each {A} (l : list A) (body : A → M unit) : M unit :=
  match l with
  | [] => mret tt
  | x :: xs => body x ;; for_each xs body
  end.

(** ** Dictionaries on the heap *)

(** [copy.copy(d)]: a new dictionary object with the same bindings. *)
Definition copy_copy (l : nat) : M nat := λ w,
  match heap w !! l with
  | Some d =>
      let l' := fresh (dom (heap w)) in
      (Ok l', set_heap (<[l' := d]> (heap w)) w)
  | None => (Raise InvalidReference, w)
  end.

(** The current bindings of the dictionary object [l]. *)
Definition dict_read (l : nat) : M dict := λ w,
  match heap w !! l with
  | Some d => (Ok d, w)
  | None => (Raise InvalidReference, w)
  end.

(** [d[k]] *)
Definition dict_getitem (l : nat) (k : string) : M pyval :=
  d ← dict_read l;
  match d !! k with
  | Some v => mret v
  | None => raise (KeyError k)
  end.

(** [d[k] = v] *)
Definition dict_setitem (l : nat) (k : string) (v : pyval) : M unit := λ w,
  match heap w !! l with
  | Some d => (Ok tt, set_heap (<[l := <[k := v]> d]> (heap w)) w)
  | None => (Raise InvalidReference, w)
  end.

(** [k in d] *)
Definition dict_contains (l : nat) (k : string) : M bool :=
  d ← dict_read l; mret (bool_decide (k ∈ dom d)).

(** [d.viewkeys()], read as a set at the moment of the call. *)
Definition dict_viewkeys (l : nat) : M (gset string) :=
  d ← dict_read l; mret (dom d).

(** ** The file system as the program sees it *)

(** Follow symbolic links, giving up after [fuel] links (ELOOP). *)
Fixpoint resolve (fuel : nat) (t : gmap string node) (p : string) : option node :=
  match t !! p with
  | Some (Symlink q) =>
      match fuel with
      | O => None
      | S n => resolve n t q
      end
  | other => other
  end.

Definition MAXSYMLINKS : nat := 40.

Definition isfile (t : gmap string node) (p : string) : bool :=
  bool_decide (resolve MAXSYMLINKS t p = Some Regular).

Definition isdir (t : gmap string node) (p : string) : bool :=
  bool_decide (resolve MAXSYMLINKS t p = Some Directory).

Definition os_path_isfile (p : string) : M bool := λ w, (Ok (isfile (fs w) p), w).
Definition os_path_isdir (p : string) : M bool := λ w, (Ok (isdir (fs w) p), w).

(** [os.makedirs(p)]: fails when something is already at [p]. *)
Definition os_makedirs (p : string) : M unit := λ w,
  match fs w !! p with
  | None => (Ok tt, set_fs (<[p := Directory]> (fs w)) (EvMakedirs p) w)
  | Some _ => (Raise (OSError p), w)
  end.

(** [os.remove(p)]: unlinks a file or a link, not a directory. *)
Definition os_remove (p : string) : M unit := λ w,
  match fs w !! p with
  | Some Regular | Some (Symlink _) =>
      (Ok tt, set_fs (delete p (fs w)) (EvRemove p) w)
  | Some Directory | None => (Raise (OSError p), w)
  end.

(** [os.symlink(src, dst)]: fails when something is already at [dst]. *)
Definition os_symlink (src : pyval) (dst : string) : M unit := λ w,
  match src with
  | PyStr target =>
      match fs w !! dst with
      | None => (Ok tt, set_fs (<[dst := Symlink target]> (fs w)) (EvSymlink target dst) w)
      | Some _ => (Raise (OSError dst), w)
      end
  | _ => (Raise TypeError, w)
  end.

Definition logger_warn (msg : string) : M unit := λ w, (Ok tt, add_log WARNING msg w).
Definition logger_info (msg : string) : M unit := λ w, (Ok tt, add_log INFO msg w).

(** [config.get(section, option)] of a [ConfigParser]. *)
Definition config_get (config : gmap (string * string) string)
    (section option : string) : M string :=
  match config !! (section, option) with
  | Some v => mret v
  | None => raise (NoOptionError section option)
  end.

(** ** The pipeline, over its external collaborators *)

Section Pipeline.

(** Python floats, [float(s)] and [str(x)]. *)
Variable float : Type.
Variable py_float : string → option float.
Variable py_str : float → string.

(** [os.path.abspath], which depends on the working directory. *)
Variable os_path_abspath : string → string.

(** The External Tool Adapter: running an interface on its keyword
    arguments gives named output file paths, or fails. *)
Variable adapter : operation → kwargs → option outputs.

(** *** nipype.caching.Memory *)

(** Modelled from the spec: [nipype.caching.Memory], the Memoized
    Invoker, is a library that is not part of the sources.  An object is
    created on a cache directory. *)
Record Memory := { base_dir : string }.

(** Modelled from the spec: the Cache Entry store of the Memoized
    Invoker, read by key; the recorded outputs of an Invocation Key, if
    any. *)
Fixpoint cache_lookup (k : invocation_key)
    (st : list (invocation_key * outputs)) : option outputs :=
  match st with
  | [] => None
  | (k', o) :: st' => if decide (k = k') then Some o else cache_lookup k st'
  end.

(** Modelled from the spec: [Memory.cache(interface)] applied to
    keyword arguments is missing from the sources.  It computes the
    Invocation Key; an entry for the key is returned without invoking
    the adapter; otherwise the adapter runs, its result is stored under
    the key and returned; a failure of the adapter propagates and is not
    stored. *)
Definition Memory_cache (mem : Memory) (op : operation) (ps : kwargs) : M outputs := λ w,
  let key := (base_dir mem, op, ps) in
  match cache_lookup key (cache_store w) with
  | Some o => (Ok o, w)
  | None =>
      match adapter op ps with
      | Some o => (Ok o, add_cache_entry key o (add_executed op ps w))
      | None => (Raise (ExternalToolError op), add_executed op ps w)
      end
  end.

(** [result.outputs.<name>] *)
Definition outputs_attr (o : outputs) (name : string) : M pyval :=
  match o !! name with
  | Some p => mret (PyStr p)
  | None => raise (AttributeError name)
  end.

(** [interface(k1=v1, ...)] *)
Definition keywords (l : list (string * param)) : kwargs := list_to_map l.

(** *** Configuration checks *)

Definition _check_configured_directory (path name : string) : M string :=
  let path := os_path_abspath path in
  b ← os_path_isdir path;
  (if negb b then
     logger_warn ("The configured " +:+ name +:+ " " +:+ path +:+
                  " does not exist - attempting to create directory...");;
     os_makedirs path
   else mret tt);;
  mret path.

Definition _check_configured_file (path name : string) : M string :=
  let path := os_path_abspath path in
  b ← os_path_isfile path;
  if negb b then
    raise (ValueError ("The configured " +:+ name +:+ " " +:+ path +:+
                       " does not exist!"))
  else mret path.

(** *** class PipelineContext *)

Record PipelineContext := {
  _mem : Memory;
  _output_dir : string;
  _pixel_spacing : list float;
  _elastix_parameter_file : string;
  _registration_base_list : list string;
  _skullstripping_base_list : list string;
  _intensity_model_dir : string;
  _feature_config_file : string;
  _forest_dir : string
}.

(** [x, y, z = map(float, pixel_spacing.split(','))] inside
    [try ... except ValueError]. *)
Definition parse_pixel_spacing (pixel_spacing : string) : M (list float) :=
  match mapM py_float (Str.split_comma pixel_spacing) with
  | Some [x; y; z] => mret [x; y; z]
  | _ =>
      raise (ValueError ("The configured pixel spacing " +:+ pixel_spacing +:+
                         " is invalid; mustbe exactly 3 comma-separated" +:+
                         " numbers with a dotas decimal mark!"))
  end.

Definition PipelineContext_init (config : gmap (string * string) string)
    : M PipelineContext :=
  v ← config_get config "common" "cache_dir";
  cache_dir ← _check_configured_directory v "cache directory";
  let mem := {| base_dir := cache_dir |} in
  logger_info ("Using cache directory " +:+ cache_dir);;
  v ← config_get config "common" "output_dir";
  output_dir ← _check_configured_directory v "output directory";
  logger_info ("Using output directory " +:+ output_dir);;
  pixel_spacing ← config_get config "resampling" "pixel_spacing";
  xyz ← parse_pixel_spacing pixel_spacing;
  v ← config_get config "resampling" "elastix_parameter_file";
  elastix_parameter_file ← _check_configured_file v "elastix configuration file";
  rb ← config_get config "resampling" "registration_base";
  let registration_base_list := map Str.strip (Str.split_comma rb) in
  sb ← config_get config "skullstripping" "base_image";
  let skullstripping_base_list := map Str.strip (Str.split_comma sb) in
  v ← config_get config "intensityrangestandardization" "model_dir";
  intensity_model_dir ← _check_configured_directory v "intensity model directory";
  logger_info ("Using intensity model directory " +:+ intensity_model_dir);;
  v ← config_get config "classification" "feature_config_file";
  feature_config_file ← _check_configured_file v "feature configuration file";
  v ← config_get config "classification" "forest_dir";
  forest_dir ← _check_configured_directory v "classification forest directory";
  mret {| _mem := mem;
          _output_dir := output_dir;
          _pixel_spacing := xyz;
          _elastix_parameter_file := elastix_parameter_file;
          _registration_base_list := registration_base_list;
          _skullstripping_base_list := skullstripping_base_list;
          _intensity_model_dir := intensity_model_dir;
          _feature_config_file := feature_config_file;
          _forest_dir := forest_dir |}.

Definition output_dir (self : PipelineContext) : string := _output_dir self.

(** *** Selection helpers *)

(** [for s in candidates: if s in sequences: return s] *)
Fixpoint first_present (candidates : list string) (sequences : dict) : option string :=
  match candidates with
  | [] => None
  | s :: rest =>
      if bool_decide (s ∈ dom sequences) then Some s
      else first_present rest sequences
  end.

Definition get_registration_base (self : PipelineContext) (sequences : dict)
    : result string :=
  match first_present (_registration_base_list self) sequences with
  | Some s => Ok s
  | None =>
      Raise (RuntimeError ("None of the configured registration base sequences" +:+
                           Str.repr_list (_registration_base_list self) +:+
                           " is present!"))
  end.

Definition get_skullstripping_base (self : PipelineContext) (sequences : dict)
    : result string :=
  match first_present (_skullstripping_base_list self) sequences with
  | Some s => Ok s
  | None =>
      Raise (RuntimeError ("None of the configured skullstripping base" +:+
                           "sequences " +:+
                           Str.repr_list (_registration_base_list self) +:+
                           " is present!"))
  end.

Definition intensity_model_path (self : PipelineContext) (sequence : string) : string :=
  os_path_join (_intensity_model_dir self)
               ("intensity_model_" +:+ sequence +:+ ".pkl").

Definition get_intensity_model (self : PipelineContext) (sequence : string)
    : M string :=
  let path := intensity_model_path self sequence in
  b ← os_path_isfile path;
  if (b : bool) then mret path
  else raise (ValueError ("No intensity model found; model file was" +:+
                          "expected at " +:+ path)).

Definition known_sequences : gset string :=
  {[ "flair_tra"; "dw_tra_b1000_dmean"; "t1_sag_tfe" ]}.

Definition get_forest (self : PipelineContext) (sequences : dict) : result string :=
  if bool_decide (dom sequences = known_sequences) then
    Ok (os_path_join (_forest_dir self) "forest.pklz")
  else Raise (ValueError "No forest file available for given sequences!").

(** *** Stage methods: one memoised call (or two chained) each *)

Definition resample (self : PipelineContext) (in_file : pyval) : M pyval :=
  result ← Memory_cache (_mem self) MedpyResample
    (keywords [("in_file", ArgVal in_file);
               ("spacing", ArgVal (PyStr (Str.join "," (map py_str (_pixel_spacing self)))))]);
  outputs_attr result "out_file".

(** The keyword arguments of the elastix registration call. *)
Definition register_kwargs (self : PipelineContext) (moving_image fixed_image : pyval)
    : kwargs :=
  keywords [("moving_image", ArgVal moving_image);
            ("fixed_image", ArgVal fixed_image);
            ("parameters", ArgList [PyStr (_elastix_parameter_file self)]);
            ("terminal_output", ArgVal (PyStr "none"))].

Definition register (self : PipelineContext) (moving_image fixed_image : pyval)
    : M (pyval * pyval) :=
  result ← Memory_cache (_mem self) Registration
    (register_kwargs self moving_image fixed_image);
  warped_file ← outputs_attr result "warped_file";
  transform_file ← outputs_attr result "transform";
  mret (warped_file, transform_file).

Definition transform (self : PipelineContext) (moving_image transform_file : pyval)
    : M pyval :=
  result ← Memory_cache (_mem self) ApplyWarp
    (keywords [("moving_image", ArgVal moving_image);
               ("transform_file", ArgVal transform_file)]);
  outputs_attr result "warped_file".

Definition skullstrip (self : PipelineContext) (in_file : pyval) : M pyval :=
  result ← Memory_cache (_mem self) BET
    (keywords [("in_file", ArgVal in_file);
               ("mask", ArgBool true);
               ("robust", ArgBool true);
               ("output_type", ArgVal (PyStr "NIFTI_GZ"))]);
  outputs_attr result "mask_file".

Definition apply_mask (self : PipelineContext) (in_file mask_file : pyval) : M pyval :=
  result ← Memory_cache (_mem self) ApplyMask
    (keywords [("in_file", ArgVal in_file); ("mask_file", ArgVal mask_file)]);
  outputs_attr result "out_file".

Definition correct_biasfield (self : PipelineContext) (in_file mask_file : pyval)
    : M pyval :=
  result_bfc ← Memory_cache (_mem self) MRBias
    (keywords [("in_file", ArgVal in_file); ("mask_file", ArgVal mask_file)]);
  bfc_file ← outputs_attr result_bfc "out_file";
  result_mmd ← Memory_cache (_mem self) NiftiModifyMetadata
    (keywords [("in_file", ArgVal bfc_file);
               ("tasks", ArgList [PyStr "qf=aff"; PyStr "sf=aff";
                                  PyStr "qfc=1"; PyStr "sfc=1"])]);
  outputs_attr result_mmd "out_file".

Definition standardize_intensityrange (self : PipelineContext)
    (in_file mask_file model_file : pyval) : M pyval :=
  result_irs ← Memory_cache (_mem self) MedpyIntensityRangeStandardization
    (keywords [("in_file", ArgVal in_file);
               ("out_dir", ArgVal (PyStr "."));
               ("mask_file", ArgVal mask_file);
               ("lmodel", ArgVal model_file)]);
  irs_file ← outputs_attr result_irs "out_file";
  result_co ← Memory_cache (_mem self) CondenseOutliers
    (keywords [("in_file", ArgVal irs_file)]);
  outputs_attr result_co "out_file".

Definition extract_features (self : PipelineContext) (sequence_paths : nat)
    (mask_file : pyval) : M pyval :=
  seqs ← dict_read sequence_paths;
  result ← Memory_cache (_mem self) ExtractFeatures
    (keywords [("sequence_paths", ArgDict seqs);
               ("config_file", ArgVal (PyStr (_feature_config_file self)));
               ("mask_file", ArgVal mask_file);
               ("out_dir", ArgVal (PyStr "."))]);
  outputs_attr result "out_dir".

Definition apply_rdf (self : PipelineContext) (forest_file feature_dir mask_file : pyval)
    : M (pyval * pyval) :=
  result ← Memory_cache (_mem self) ApplyRdf
    (keywords [("forest_file", ArgVal forest_file);
               ("feature_config_file", ArgVal (PyStr (_feature_config_file self)));
               ("in_dir", ArgVal feature_dir);
               ("mask_file", ArgVal mask_file)]);
  segmentation ← outputs_attr result "out_file_segmentation";
  probabilities ← outputs_attr result "out_file_probabilities";
  mret (segmentation, probabilities).

(** *** The driver: execute_pipeline *)

Definition ADC : string := "adc".
Definition DWI : string := "dwi".

(** Lines 38-40: register every sequence but the base, ADC and DWI. *)
Definition register_to_base (context : PipelineContext) (sequence_paths : nat)
    (fixed_image_key : string) (fixed_image : pyval) : M unit :=
  keys ← dict_viewkeys sequence_paths;
  for_each (elements (keys ∖ ({[ fixed_image_key; ADC; DWI ]} : gset string)))
    (λ key,
       moving ← dict_getitem sequence_paths key;
       '(warped, _) ← register context moving fixed_image;
       dict_setitem sequence_paths key warped).

(** Lines 44-53.  The local [transform] is assigned only in the DWI
    branch: [None] below is the unassigned local, whose read raises. *)
Definition dwi_adc_special_case (context : PipelineContext) (sequence_paths : nat)
    (fixed_image : pyval) : M unit :=
  has_dwi ← dict_contains sequence_paths DWI;
  transform_local ←
    (if (has_dwi : bool) then
       moving ← dict_getitem sequence_paths DWI;
       '(warped, transform_file) ← register context moving fixed_image;
       dict_setitem sequence_paths DWI warped;;
       mret (Some transform_file)
     else mret None);
  has_adc ← dict_contains sequence_paths ADC;
  if (has_adc : bool) then
    match transform_local with
    | None => raise (UnboundLocalError "transform")
    | Some transform_file =>
        if bool_decide (transform_file ≠ PyNone) then
          moving ← dict_getitem sequence_paths ADC;
          warped ← transform context moving transform_file;
          dict_setitem sequence_paths ADC warped
        else
          moving ← dict_getitem sequence_paths ADC;
          '(warped, transform_adc) ← register context moving fixed_image;
          dict_setitem sequence_paths ADC (PyTuple warped transform_adc)
    end
  else mret tt.

(** Lines 78-83, one iteration. *)
Definition publish_file (context : PipelineContext) (path : pyval) (filename : string)
    : M unit :=
  let out_path := os_path_join (output_dir context) filename in
  b ← os_path_isfile out_path;
  (if (b : bool) then os_remove out_path else mret tt);;
  os_symlink path out_path.

Definition publish (context : PipelineContext)
    (classification_image probability_image : pyval) : M unit :=
  for_each [(classification_image, "segmentation.nii.gz");
            (probability_image, "probability.nii.gz")]
    (λ '(path, filename), publish_file context path filename).

(** Lines 30-76: everything before publication. *)
Definition run_stages (sequence_paths : nat) (config : gmap (string * string) string)
    : M (PipelineContext * pyval * pyval) :=
  sequence_paths ← copy_copy sequence_paths;
  context ← PipelineContext_init config;
  (* -- Resampling *)
  seqs ← dict_read sequence_paths;
  fixed_image_key ← lift_result (get_registration_base context seqs);
  v ← dict_getitem sequence_paths fixed_image_key;
  fixed_image ← resample context v;
  dict_setitem sequence_paths fixed_image_key fixed_image;;
  register_to_base context sequence_paths fixed_image_key fixed_image;;
  dwi_adc_special_case context sequence_paths fixed_image;;
  (* -- Skullstripping *)
  seqs ← dict_read sequence_paths;
  skullstrip_base_key ← lift_result (get_skullstripping_base context seqs);
  v ← dict_getitem sequence_paths skullstrip_base_key;
  mask ← skullstrip context v;
  keys ← dict_viewkeys sequence_paths;
  for_each (elements keys)
    (λ key,
       v ← dict_getitem sequence_paths key;
       masked ← apply_mask context v mask;
       dict_setitem sequence_paths key masked);;
  (* -- Biasfield correction, intensityrange standardization *)
  keys ← dict_viewkeys sequence_paths;
  for_each (elements keys)
    (λ key,
       v ← dict_getitem sequence_paths key;
       corrected ← correct_biasfield context v mask;
       dict_setitem sequence_paths key corrected;;
       v ← dict_getitem sequence_paths key;
       model ← get_intensity_model context key;
       standardized ← standardize_intensityrange context v mask (PyStr model);
       dict_setitem sequence_paths key standardized);;
  (* -- Feature extraction and RDF classification *)
  features ← extract_features context sequence_paths mask;
  seqs ← dict_read sequence_paths;
  forest ← lift_result (get_forest context seqs);
  '(classification_image, probability_image) ←
    apply_rdf context (PyStr forest) features mask;
  mret (context, classification_image, probability_image).

Definition execute_pipeline (sequence_paths : nat)
    (config : gmap (string * string) string) : M unit :=
  '(context, classification_image, probability_image) ←
    run_stages sequence_paths config;
  publish context classification_image probability_image.

End Pipeline.

Arguments _mem {float} _.
Arguments _output_dir {float} _.
Arguments _pixel_spacing {float} _.
Arguments _elastix_parameter_file {float} _.
Arguments _registration_base_list {float} _.
Arguments _skullstripping_base_list {float} _.
Arguments _intensity_model_dir {float} _.
Arguments _feature_config_file {float} _.
Arguments _forest_dir {float} _.
Arguments output_dir {float} self.
Arguments parse_pixel_spacing {float} py_float pixel_spacing.
Arguments PipelineContext_init {float} py_float os_path_abspath config.
Arguments get_registration_base {float} self sequences.
Arguments get_skullstripping_base {float} self sequences.
Arguments get_forest {float} self sequences.
Arguments get_intensity_model {float} self sequence.
Arguments intensity_model_path {float} self sequence.
Arguments resample {float} py_str adapter self in_file.
Arguments register_kwargs {float} self moving_image fixed_image.
Arguments register {float} adapter self moving_image fixed_image.
Arguments transform {float} adapter self moving_image transform_file.
Arguments skullstrip {float} adapter self in_file.
Arguments apply_mask {float} adapter self in_file mask_file.
Arguments correct_biasfield {float} adapter self in_file mask_file.
Arguments standardize_intensityrange {float} adapter self in_file mask_file model_file.
Arguments extract_features {float} adapter self sequence_paths mask_file.
Arguments apply_rdf {float} adapter self forest_file feature_dir mask_file.
Arguments register_to_base {float} adapter context sequence_paths fixed_image_key fixed_image.
Arguments dwi_adc_special_case {float} adapter context sequence_paths fixed_image.
Arguments publish_file {float} context path filename.
Arguments publish {float} context classification_image probability_image.
Arguments run_stages {float} py_float py_str os_path_abspath adapter sequence_paths config.
Arguments execute_pipeline {float} py_float py_str os_path_abspath adapter sequence_paths config.

(** ** A small concrete instance, used to run the model *)

Module Demo.

(** Floats are kept as their decimal text; the empty string is not a number. *)
Definition float : Type := string.
Definition py_float (s : string) : option float :=
  if bool_decide (Str.strip s = EmptyString) then None else Some (Str.strip s).
Definition py_str (x : float) : string := x.

(** The working directory is the root: absolute paths are unchanged. *)
Definition abspath (p : string) : string := p.

Definition arg (ps : kwargs) (k : string) : string :=
  match ps !! k with
  | Some (ArgVal (PyStr s)) => s
  | _ => "?"
  end.

(** A tool adapter that names each output after its inputs and never fails. *)
Definition adapter (op : operation) (ps : kwargs) : option outputs :=
  match op with
  | MedpyResample => Some {[ "out_file" := "resampled:" +:+ arg ps "in_file" ]}
  | Registration =>
      Some (list_to_map
              [("warped_file", "warped:" +:+ arg ps "moving_image");
               ("transform", "transform:" +:+ arg ps "moving_image")])
  | ApplyWarp =>
      Some {[ "warped_file" := "applied:" +:+ arg ps "transform_file" +:+
                                ":" +:+ arg ps "moving_image" ]}
  | BET => Some {[ "mask_file" := "mask:" +:+ arg ps "in_file" ]}
  | ApplyMask => Some {[ "out_file" := "masked:" +:+ arg ps "in_file" ]}
  | MRBias => Some {[ "out_file" := "bfc:" +:+ arg ps "in_file" ]}
  | NiftiModifyMetadata => Some {[ "out_file" := "mmd:" +:+ arg ps "in_file" ]}
  | MedpyIntensityRangeStandardization =>
      Some {[ "out_file" := "irs:" +:+ arg ps "in_file" ]}
  | CondenseOutliers => Some {[ "out_file" := "co:" +:+ arg ps "in_file" ]}
  | ExtractFeatures => Some {[ "out_dir" := "features" ]}
  | ApplyRdf =>
      Some (list_to_map
              [("out_file_segmentation", "seg.nii.gz");
               ("out_file_probabilities", "prob.nii.gz")])
  end.

(** An adapter on which every tool fails. *)
Definition failing_adapter (op : operation) (ps : kwargs) : option outputs := None.

Definition config : gmap (string * string) string :=
  list_to_map
    [(("common", "cache_dir"), "/cache");
     (("common", "output_dir"), "/out");
     (("resampling", "pixel_spacing"), "1.0,1.0,3.0");
     (("resampling", "elastix_parameter_file"), "/etc/elastix.txt");
     (("resampling", "registration_base"), "t1_sag_tfe, flair_tra");
     (("skullstripping", "base_image"), "flair_tra");
     (("intensityrangestandardization", "model_dir"), "/models");
     (("classification", "feature_config_file"), "/etc/features.py");
     (("classification", "forest_dir"), "/forests")].

Definition files : gmap string node :=
  list_to_map
    [("/etc/elastix.txt", Regular);
     ("/etc/features.py", Regular);
     ("/out", Directory);
     ("/models", Directory);
     ("/models/intensity_model_t1_sag_tfe.pkl", Regular);
     ("/models/intensity_model_flair_tra.pkl", Regular);
     ("/models/intensity_model_dw_tra_b1000_dmean.pkl", Regular);
     ("/models/intensity_model_adc.pkl", Regular);
     ("/out/segmentation.nii.gz", Regular)].

Definition world_with (sequences : dict) : world :=
  {| heap := {[ 0 := sequences ]};
     fs := files;
     cache_store := [];
     executed := [];
     syscalls := [];
     logged := [] |}.

Definition three_sequences : dict :=
  list_to_map
    [("t1_sag_tfe", PyStr "a.img");
     ("flair_tra", PyStr "b.img");
     ("dw_tra_b1000_dmean", PyStr "c.img")].

(** A base sequence and an ADC sequence, no DWI. *)
Definition adc_without_dwi : dict :=
  list_to_map [("t1_sag_tfe", PyStr "a.img"); ("adc", PyStr "d.img")].

(** The context that construction yields on [config]. *)
Definition context : PipelineContext float :=
  {| _mem := {| base_dir := "/cache" |};
     _output_dir := "/out";
     _pixel_spacing := ["1.0"; "1.0"; "3.0"];
     _elastix_parameter_file := "/etc/elastix.txt";
     _registration_base_list := ["t1_sag_tfe"; "flair_tra"];
     _skullstripping_base_list := ["flair_tra"];
     _intensity_model_dir := "/models";
     _feature_config_file := "/etc/features.py";
     _forest_dir := "/forests" |}.

(** One memoised brain extraction on an empty cache. *)
Definition memory : Memory := {| base_dir := "/cache" |}.
Definition bet_kwargs : kwargs :=
  keywords [("in_file", ArgVal (PyStr "a.img")); ("mask", ArgBool true)].
Definition bet_outputs : outputs := {[ "mask_file" := "mask:a.img" ]}.
Definition after_bet : world :=
  (Memory_cache adapter memory BET bet_kwargs (world_with ∅)).2.


Definition run (sequences : dict) : result unit * world :=
  execute_pipeline py_float py_str abspath adapter 0 config
    (world_with sequences).

End Demo.


(** ** Vocabulary of the statements *)

(** [t'] has everything [t] has, unchanged, and at most some new
    directories: no file or link was added, removed or replaced. *)
Definition grows (t t' : gmap string node) : Prop :=
  ∀ p, match t !! p with
       | Some x => t' !! p = Some x
       | None => t' !! p = None ∨ t' !! p = Some Directory
       end.

(** A computation whose effect on the world always stays inside [R]. *)
Definition respects {A} (R : world → world → Prop) (m : M A) : Prop :=
  ∀ w, R w (m w).2.

(** The dictionary object at [l] is what it was. *)
Definition heap_kept (l : nat) (w w' : world) : Prop :=
  heap w' !! l = heap w !! l.

(** No external tool ran, and the file system only gained directories. *)
Definition nothing_executed (w w' : world) : Prop :=
  executed w' = executed w ∧ grows (fs w) (fs w').

(** Nothing was published: the file system only gained directories and
    the only file-system calls made were [os.makedirs]. *)
Definition unpublished (w w' : world) : Prop :=
  grows (fs w) (fs w') ∧
  ∃ evs, syscalls w' = syscalls w ++ evs ∧
         Forall (λ ev, ∃ p, ev = EvMakedirs p) evs.

(** Construction touches the file system and the log only. *)
Definition constructed (w w' : world) : Prop :=
  grows (fs w) (fs w') ∧
  (∀ x, x ∈ logged w → x ∈ logged w') ∧
  heap w' = heap w ∧ cache_store w' = cache_store w ∧ executed w' = executed w.





(** What a memoised call would return in [w]: the recorded outputs, or
    else what the adapter gives. *)
Definition invoke_view (adapter : operation → kwargs → option outputs)
    (w : world) (mem : Memory) (op : operation) (ps : kwargs) : option outputs :=
  match cache_lookup (base_dir mem, op, ps) (cache_store w) with
  | Some o => Some o
  | None => adapter op ps
  end.

(** The warped image and the transform that registering [moving] to
    [fixed] yields in [w]. *)
Definition registration_of {float} (adapter : operation → kwargs → option outputs)
    (self : PipelineContext float) (w : world) (moving fixed : pyval)
    : option (string * string) :=
  o ← invoke_view adapter w (_mem self) Registration (register_kwargs self moving fixed);
  warped ← o !! "warped_file";
  transform_file ← o !! "transform";
  Some (warped, transform_file).

(** The warning logged for a configured directory that is missing. *)
Definition directory_warning (name path : string) : string :=
  "The configured " +:+ name +:+ " " +:+ path +:+
  " does not exist - attempting to create directory...".


(** Every directory that construction made was announced by a warning. *)
Definition warned (w w' : world) : Prop :=
  constructed w w' ∧
  ∀ q, fs w !! q = None → fs w' !! q ≠ None →
       ∃ name, (WARNING, directory_warning name q) ∈ logged w'.

(** ** Vocabulary of the further properties *)

(** Under the invariant [I] the computation keeps [I], whether it
    returns or raises, and a value it returns satisfies [Φ]. *)
Definition keeps {A} (I : world → Prop) (m : M A) (Φ : A → Prop) : Prop :=
  ∀ w, I w → I (m w).2 ∧ ∀ a, (m w).1 = Ok a → Φ a.

(** The dictionary object at [l] has exactly the keys [D]. *)
Definition has_keys (l : nat) (D : gset string) (w : world) : Prop :=
  ∃ d, heap w !! l = Some d ∧ dom d = D.

(** Every path other than [o1] and [o2] holds what it held. *)
Definition fs_same_except (o1 o2 : string) (w w' : world) : Prop :=
  ∀ p, p ≠ o1 → p ≠ o2 → fs w' !! p = fs w !! p.

(** The number of occurrences of a character in a string. *)
Fixpoint count_char (c : ascii) (s : string) : nat :=
  match s with
  | EmptyString => 0
  | String a rest => (if Ascii.eqb a c then 1 else 0) + count_char c rest
  end.

(** The first and the last character of a string, if any. *)
Definition first_char (s : string) : option ascii :=
  match s with
  | EmptyString => None
  | String a _ => Some a
  end.

Fixpoint last_char (s : string) : option ascii :=
  match s with
  | EmptyString => None
  | String a EmptyString => Some a
  | String _ rest => last_char rest
  end.

(** No whitespace at either end. *)
Definition trimmed (s : string) : Prop :=
  (∀ a, first_char s = Some a → Str.is_space a = false) ∧
  (∀ a, last_char s = Some a → Str.is_space a = false).

(** The tools run between [w] and [w'] all satisfy [A]. *)
Definition ran_only (A : operation → kwargs → Prop) (w w' : world) : Prop :=
  ∃ evs, executed w' = executed w ++ evs ∧ ∀ op ps, (op, ps) ∈ evs → A op ps.

(** Every cache entry of [w] is still there, unchanged, in [w2]. *)
Definition cache_extends (w w2 : world) : Prop :=
  ∀ k o, cache_lookup k (cache_store w) = Some o →
         cache_lookup k (cache_store w2) = Some o.

(** The cache only gained entries and the heap is as it was. *)
Definition stage_effect (w w' : world) : Prop :=
  cache_extends w w' ∧ heap w' = heap w.

(** Once the computation has returned a value, it returns the same value
    and leaves the world as it is, in every later world that kept the
    cache entries and has the same heap. *)
Definition replays {A} (m : M A) : Prop :=
  ∀ w a w1, m w = (Ok a, w1) →
    ∀ w2, cache_extends w1 w2 → heap w2 = heap w → m w2 = (Ok a, w2).

(** Lines 60-61 of the driver: the mask is applied to every sequence. *)
Definition apply_mask_to_all {float} (adapter : operation → kwargs → option outputs)
    (context : PipelineContext float) (sequence_paths : nat) (mask : pyval) : M unit :=
  keys ← dict_viewkeys sequence_paths;
  for_each (elements keys)
    (λ key,
       v ← dict_getitem sequence_paths key;
       masked ← apply_mask adapter context v mask;
       dict_setitem sequence_paths key masked).

(** Lines 64-70 of the driver: bias-field correction, then intensity
    range standardisation with the model of the sequence. *)
Definition correct_and_standardize_all {float}
    (adapter : operation → kwargs → option outputs)
    (context : PipelineContext float) (sequence_paths : nat) (mask : pyval) : M unit :=
  keys ← dict_viewkeys sequence_paths;
  for_each (elements keys)
    (λ key,
       v ← dict_getitem sequence_paths key;
       corrected ← correct_biasfield adapter context v mask;
       dict_setitem sequence_paths key corrected;;
       v ← dict_getitem sequence_paths key;
       model ← get_intensity_model context key;
       standardized ← standardize_intensityrange adapter context v mask (PyStr model);
       dict_setitem sequence_paths key standardized).

(** The worlds answer every memoised call and every file test alike. *)
Definition same_answers (adapter : operation → kwargs → option outputs)
    (w w' : world) : Prop :=
  fs w' = fs w ∧
  ∀ mem op ps, invoke_view adapter w' mem op ps = invoke_view adapter w mem op ps.

(** The masked image that [apply_mask] yields in [w]. *)
Definition masked_of {float} (adapter : operation → kwargs → option outputs)
    (self : PipelineContext float) (w : world) (in_file mask_file : pyval)
    : option string :=
  o ← invoke_view adapter w (_mem self) ApplyMask
        (keywords [("in_file", ArgVal in_file); ("mask_file", ArgVal mask_file)]);
  o !! "out_file".

(** The corrected image that [correct_biasfield] yields in [w]. *)
Definition corrected_of {float} (adapter : operation → kwargs → option outputs)
    (self : PipelineContext float) (w : world) (in_file mask_file : pyval)
    : option string :=
  o1 ← invoke_view adapter w (_mem self) MRBias
         (keywords [("in_file", ArgVal in_file); ("mask_file", ArgVal mask_file)]);
  bfc ← o1 !! "out_file";
  o2 ← invoke_view adapter w (_mem self) NiftiModifyMetadata
         (keywords [("in_file", ArgVal (PyStr bfc));
                    ("tasks", ArgList [PyStr "qf=aff"; PyStr "sf=aff";
                                       PyStr "qfc=1"; PyStr "sfc=1"])]);
  o2 !! "out_file".

(** The standardised image that [standardize_intensityrange] yields in [w]. *)
Definition standardized_of {float} (adapter : operation → kwargs → option outputs)
    (self : PipelineContext float) (w : world) (in_file mask_file model_file : pyval)
    : option string :=
  o1 ← invoke_view adapter w (_mem self) MedpyIntensityRangeStandardization
         (keywords [("in_file", ArgVal in_file);
                    ("out_dir", ArgVal (PyStr "."));
                    ("mask_file", ArgVal mask_file);
                    ("lmodel", ArgVal model_file)]);
  irs ← o1 !! "out_file";
  o2 ← invoke_view adapter w (_mem self) CondenseOutliers
         (keywords [("in_file", ArgVal (PyStr irs))]);
  o2 !! "out_file".

(** What the correction and standardisation of the sequence [key] yield
    in [w]: the model file of the sequence has to be there. *)
Definition processed_of {float} (adapter : operation → kwargs → option outputs)
    (self : PipelineContext float) (w : world) (key : string)
    (in_file mask_file : pyval) : option string :=
  corrected ← corrected_of adapter self w in_file mask_file;
  if isfile (fs w) (intensity_model_path self key) then
    standardized_of adapter self w (PyStr corrected) mask_file
      (PyStr (intensity_model_path self key))
  else None.

(** DWI and ADC beside the base sequence. *)
Definition dwi_and_adc : dict :=
  list_to_map
    [("t1_sag_tfe", PyStr "a.img"); ("dwi", PyStr "e.img"); ("adc", PyStr "d.img")].

(** The world that construction on the demonstration configuration leaves. *)
Definition demo_constructed : world :=
  (PipelineContext_init Demo.py_float Demo.abspath Demo.config (Demo.world_with ∅)).2.

(** Lines 34-76 of the driver: the stages, on the working copy
    [sequence_paths] and with the constructed context. *)
Definition stages {float} (py_str : float → string)
    (adapter : operation → kwargs → option outputs)
    (context : PipelineContext float) (sequence_paths : nat)
    : M (PipelineContext float * pyval * pyval) :=
  seqs ← dict_read sequence_paths;
  fixed_image_key ← lift_result (get_registration_base context seqs);
  v ← dict_getitem sequence_paths fixed_image_key;
  fixed_image ← resample py_str adapter context v;
  dict_setitem sequence_paths fixed_image_key fixed_image;;
  register_to_base adapter context sequence_paths fixed_image_key fixed_image;;
  dwi_adc_special_case adapter context sequence_paths fixed_image;;
  seqs ← dict_read sequence_paths;
  skullstrip_base_key ← lift_result (get_skullstripping_base context seqs);
  v ← dict_getitem sequence_paths skullstrip_base_key;
  mask ← skullstrip adapter context v;
  keys ← dict_viewkeys sequence_paths;
  for_each (elements keys)
    (λ key,
       v ← dict_getitem sequence_paths key;
       masked ← apply_mask adapter context v mask;
       dict_setitem sequence_paths key masked);;
  keys ← dict_viewkeys sequence_paths;
  for_each (elements keys)
    (λ key,
       v ← dict_getitem sequence_paths key;
       corrected ← correct_biasfield adapter context v mask;
       dict_setitem sequence_paths key corrected;;
       v ← dict_getitem sequence_paths key;
       model ← get_intensity_model context key;
       standardized ← standardize_intensityrange adapter context v mask (PyStr model);
       dict_setitem sequence_paths key standardized);;
  features ← extract_features adapter context sequence_paths mask;
  seqs ← dict_read sequence_paths;
  forest ← lift_result (get_forest context seqs);
  '(classification_image, probability_image) ←
    apply_rdf adapter context (PyStr forest) features mask;
  mret (context, classification_image, probability_image).

(** A computation on a dictionary object that, once it has returned,
    follows the same course when it is run again on a dictionary with
    the same bindings, in a world that kept the cache entries: the
    second run executes no tool and adds nothing to the cache, and
    unless it raises it returns the same value and leaves the same
    bindings.  The first run only adds to the cache. *)
Definition reruns {A} (F : nat → M A) : Prop :=
  ∀ l1 w a w1, F l1 w = (Ok a, w1) →
    cache_extends w w1 ∧
    ∀ l2 w2, cache_extends w1 w2 → heap w2 !! l2 = heap w !! l1 →
      executed (F l2 w2).2 = executed w2 ∧
      cache_store (F l2 w2).2 = cache_store w2 ∧
      (((F l2 w2).1 = Ok a ∧ heap (F l2 w2).2 !! l2 = heap w1 !! l1) ∨
       ∃ e, (F l2 w2).1 = Raise e).

(** No tool ran and the cache is as it was. *)
Definition tools_idle (w w' : world) : Prop :=
  executed w' = executed w ∧ cache_store w' = cache_store w.


(** The world after resampling one image on an empty cache. *)
Definition demo_resampled : world :=
  (resample Demo.py_str Demo.adapter Demo.context (PyStr "a.img") (Demo.world_with ∅)).2.

(** The output fields that the stage methods read from the result of
    each tool. *)
Definition read_fields (op : operation) : list string :=
  match op with
  | MedpyResample => ["out_file"]
  | Registration => ["warped_file"; "transform"]
  | ApplyWarp => ["warped_file"]
  | BET => ["mask_file"]
  | ApplyMask => ["out_file"]
  | MRBias => ["out_file"]
  | NiftiModifyMetadata => ["out_file"]
  | MedpyIntensityRangeStandardization => ["out_file"]
  | CondenseOutliers => ["out_file"]
  | ExtractFeatures => ["out_dir"]
  | ApplyRdf => ["out_file_segmentation"; "out_file_probabilities"]
  end.

(** Every memoised call has an answer in [w], from the cache or from the
    adapter, and the answer has the fields that its stage reads. *)
Definition answers (adapter : operation → kwargs → option outputs) (w : world) : Prop :=
  ∀ mem op ps, ∃ o, invoke_view adapter w mem op ps = Some o ∧
                    ∀ name, name ∈ read_fields op → is_Some (o !! name).

(** Under the invariant [I] the computation returns, keeps [I], and the
    value it returns satisfies [Φ]. *)
Definition succeeds {A} (I : world → Prop) (m : M A) (Φ : A → Prop) : Prop :=
  ∀ w, I w → ∃ a w', m w = (Ok a, w') ∧ I w' ∧ Φ a.

(** The working copy at [l] has the keys [D], the file system is [t] and
    every memoised call has an answer. *)
Definition ready (adapter : operation → kwargs → option outputs)
    (l : nat) (D : gset string) (t : gmap string node) (w : world) : Prop :=
  has_keys l D w ∧ fs w = t ∧ answers adapter w.

(** A Python string. *)
Definition is_str (v : pyval) : Prop := ∃ s, v = PyStr s.



(** * Properties *)

(** ** The monad *)

Lemma bind_ok {A B} (m : M A) (f : A → M B) w a w' :
  m w = (Ok a, w') → (m ≫= f) w = f a w'.
Proof. intros H. unfold mbind, M_bind. by rewrite H. Qed.

Lemma bind_raise {A B} (m : M A) (f : A → M B) w e w' :
  m w = (Raise e, w') → (m ≫= f) w = (Raise e, w').
Proof. intros H. unfold mbind, M_bind. by rewrite H. Qed.

Lemma bind_inv {A B} (m : M A) (f : A → M B) w r w2 :
  (m ≫= f) w = (r, w2) →
  (∃ a w1, m w = (Ok a, w1) ∧ f a w1 = (r, w2)) ∨
  (∃ e, m w = (Raise e, w2) ∧ r = Raise e).
Proof.
  unfold mbind, M_bind. destruct (m w) as [[a|e] w1]; intros H.
  - left. eauto.
  - right. exists e. by inversion H.
Qed.

(** ** Selection helpers *)

Lemma first_present_Some candidates (sequences : dict) s :
  first_present candidates sequences = Some s ↔
  ∃ pre post, candidates = pre ++ s :: post ∧ s ∈ dom sequences ∧
              ∀ c, c ∈ pre → c ∉ dom sequences.
Proof.
  induction candidates as [|c cs IH]; simpl.
  - split; [done|]. intros (pre & post & Heq & _). by destruct pre.
  - case_bool_decide as Hc.
    + split.
      * intros [= <-]. exists [], cs. split; [done|]. split; [done|].
        intros ? Hin. by apply elem_of_nil in Hin.
      * intros (pre & post & Heq & Hs & Hpre). destruct pre as [|p pre].
        -- simpl in Heq. by inversion Heq.
        -- simpl in Heq. inversion Heq; subst. exfalso.
           apply (Hpre p); [apply list_elem_of_here | done].
    + rewrite IH. split.
      * intros (pre & post & -> & Hs & Hpre). exists (c :: pre), post.
        split; [done|]. split; [done|].
        intros x Hx. apply elem_of_cons in Hx as [->|Hx]; auto.
      * intros (pre & post & Heq & Hs & Hpre). destruct pre as [|p pre].
        -- simpl in Heq. inversion Heq; subst. done.
        -- simpl in Heq. inversion Heq; subst. exists pre, post.
           split; [done|]. split; [done|].
           intros x Hx. apply Hpre. by apply list_elem_of_further.
Qed.

Lemma first_present_None candidates (sequences : dict) :
  first_present candidates sequences = None ↔
  ∀ c, c ∈ candidates → c ∉ dom sequences.
Proof.
  induction candidates as [|c cs IH]; simpl.
  - split; [|done]. intros _ ? Hin. by apply elem_of_nil in Hin.
  - case_bool_decide as Hc.
    + split; [done|]. intros H. exfalso. apply (H c); [apply list_elem_of_here | done].
    + rewrite IH. split.
      * intros H x Hx. apply elem_of_cons in Hx as [->|Hx]; auto.
      * intros H x Hx. apply H. by apply list_elem_of_further.
Qed.

(** C2.  [get_registration_base] and [get_skullstripping_base] return a
    candidate exactly when it is the first one, in the configured order,
    that is a key of the available sequences: every candidate before it
    is absent.  They raise a [RuntimeError] exactly when no candidate of
    their list is present. *)
Theorem selection_returns_first_present {float} (self : PipelineContext float)
    (sequences : dict) :
  (∀ s, get_registration_base self sequences = Ok s ↔
        ∃ pre post, _registration_base_list self = pre ++ s :: post ∧
                    s ∈ dom sequences ∧ ∀ c, c ∈ pre → c ∉ dom sequences) ∧
  ((∃ msg, get_registration_base self sequences = Raise (RuntimeError msg)) ↔
   ∀ c, c ∈ _registration_base_list self → c ∉ dom sequences) ∧
  (∀ s, get_skullstripping_base self sequences = Ok s ↔
        ∃ pre post, _skullstripping_base_list self = pre ++ s :: post ∧
                    s ∈ dom sequences ∧ ∀ c, c ∈ pre → c ∉ dom sequences) ∧
  ((∃ msg, get_skullstripping_base self sequences = Raise (RuntimeError msg)) ↔
   ∀ c, c ∈ _skullstripping_base_list self → c ∉ dom sequences).
Proof.
  unfold get_registration_base, get_skullstripping_base.
  repeat split.
  - intros H. apply first_present_Some.
    destruct (first_present _ _); [by inversion H | done].
  - intros H. apply first_present_Some in H. by rewrite H.
  - intros [msg H]. apply first_present_None.
    destruct (first_present _ _); [done | done].
  - intros H. apply first_present_None in H. rewrite H. eauto.
  - intros H. apply first_present_Some.
    destruct (first_present _ _); [by inversion H | done].
  - intros H. apply first_present_Some in H. by rewrite H.
  - intros [msg H]. apply first_present_None.
    destruct (first_present _ _); [done | done].
  - intros H. apply first_present_None in H. rewrite H. eauto.
Qed.

(** C4.  [get_forest] returns the one forest path, [forest.pklz] in the
    configured forest directory, exactly when the keys of the given
    sequences are the set of [flair_tra], [dw_tra_b1000_dmean] and
    [t1_sag_tfe]; for every other key set, a subset or a superset
    included, it raises a [ValueError]. *)
Theorem get_forest_exact_combination {float} (self : PipelineContext float)
    (sequences : dict) :
  (dom sequences = {[ "flair_tra"; "dw_tra_b1000_dmean"; "t1_sag_tfe" ]} →
   get_forest self sequences = Ok (os_path_join (_forest_dir self) "forest.pklz")) ∧
  (dom sequences ≠ {[ "flair_tra"; "dw_tra_b1000_dmean"; "t1_sag_tfe" ]} →
   get_forest self sequences =
     Raise (ValueError "No forest file available for given sequences!")) ∧
  ((∃ p, get_forest self sequences = Ok p) ↔
   dom sequences = {[ "flair_tra"; "dw_tra_b1000_dmean"; "t1_sag_tfe" ]}).
Proof.
  unfold get_forest, known_sequences.
  case_bool_decide as Hd; repeat split; try done; eauto.
  intros [p Hp]. done.
Qed.



(** ** The memoised invoker *)

Lemma cache_lookup_head k o st : cache_lookup k ((k, o) :: st) = Some o.
Proof. simpl. by rewrite decide_True. Qed.

(** A hit returns the recorded outputs and leaves the world as it is: the
    adapter does not run. *)
Lemma Memory_cache_hit adapter mem op ps w o :
  cache_lookup (base_dir mem, op, ps) (cache_store w) = Some o →
  Memory_cache adapter mem op ps w = (Ok o, w).
Proof. intros H. unfold Memory_cache. by rewrite H. Qed.

(** A failed run is not recorded: the next call with the same key runs
    the adapter again. *)
Lemma Memory_cache_failure_not_recorded adapter mem op ps w e w1 :
  Memory_cache adapter mem op ps w = (Raise e, w1) →
  cache_store w1 = cache_store w ∧
  executed w1 = executed w ++ [(op, ps)] ∧
  cache_lookup (base_dir mem, op, ps) (cache_store w1) = None.
Proof.
  unfold Memory_cache.
  destruct (cache_lookup _ _) eqn:Hc; [done|].
  destruct (adapter op ps); [done|].
  intros [= _ <-]. done.
Qed.

(** C3.  When an invocation of the memoised invoker returns outputs, a
    second invocation with the same interface and the same keyword
    arguments returns the same outputs from the cache and runs nothing,
    so that the two invocations together run the external tool at most
    once. *)
Theorem memoized_invoke_twice adapter (mem : Memory) (op : operation) (ps : kwargs)
    (w w1 : world) (o : outputs) :
  Memory_cache adapter mem op ps w = (Ok o, w1) →
  Memory_cache adapter mem op ps w1 = (Ok o, w1) ∧
  ∃ n, n ≤ 1 ∧
       executed (Memory_cache adapter mem op ps w1).2 =
         executed w ++ replicate n (op, ps).
Proof.
  intros H1.
  assert (Hhit : cache_lookup (base_dir mem, op, ps) (cache_store w1) = Some o
                 ∧ ∃ n, n ≤ 1 ∧ executed w1 = executed w ++ replicate n (op, ps)).
  { revert H1. unfold Memory_cache.
    destruct (cache_lookup _ (cache_store w)) as [o'|] eqn:Hc.
    - intros [= <- <-]. split; [done|]. exists 0. split; [lia|].
      simpl. by rewrite app_nil_r.
    - destruct (adapter op ps) as [o'|]; [|done].
      intros [= <- <-]. split.
      + simpl. by rewrite decide_True.
      + exists 1. split; [lia|]. done. }
  destruct Hhit as [Hhit (n & Hn & Hex)].
  rewrite (Memory_cache_hit _ _ _ _ _ _ Hhit). split; [done|].
  exists n. done.
Qed.

(** ** Error messages of the selection helpers *)

(** The message of a failed skull-stripping selection is built from the
    registration candidates. *)
Lemma get_skullstripping_base_message {float} (self : PipelineContext float)
    (sequences : dict) msg :
  get_skullstripping_base self sequences = Raise (RuntimeError msg) →
  msg = "None of the configured skullstripping basesequences " +:+
        Str.repr_list (_registration_base_list self) +:+ " is present!".
Proof.
  unfold get_skullstripping_base.
  destruct (first_present _ _); [done|]. by intros [= <-].
Qed.

(** C6.  With registration candidates [t1_sag_tfe, flair_tra],
    skull-stripping candidates [flair_tra] and the sequences
    [t1_sag_tfe] and [adc], the failed skull-stripping selection reports
    the registration candidates, not the list that was scanned. *)
Theorem skullstripping_error_reports_registration_list :
  _skullstripping_base_list Demo.context = ["flair_tra"] ∧
  get_skullstripping_base Demo.context Demo.adc_without_dwi =
    Raise (RuntimeError ("None of the configured skullstripping basesequences " +:+
                         "['t1_sag_tfe', 'flair_tra'] is present!")).
Proof. split; [reflexivity|]. vm_compute. reflexivity. Qed.

(** ** The file system only grows during construction *)

Lemma grows_refl t : grows t t.
Proof. intros p. destruct (t !! p); auto. Qed.

Lemma grows_trans t1 t2 t3 : grows t1 t2 → grows t2 t3 → grows t1 t3.
Proof.
  intros H12 H23 p. specialize (H12 p). specialize (H23 p).
  destruct (t1 !! p) as [x|].
  - by rewrite H12 in H23.
  - destruct H12 as [H12|H12]; rewrite H12 in H23; auto.
Qed.

Lemma grows_makedirs t p : t !! p = None → grows t (<[p := Directory]> t).
Proof.
  intros Hp q. destruct (decide (p = q)) as [<-|Hne].
  - rewrite Hp, lookup_insert_eq. auto.
  - rewrite lookup_insert_ne by done. destruct (t !! q); auto.
Qed.

Lemma resolve_unfold n t p :
  resolve n t p =
    match t !! p with
    | Some (Symlink q) => match n with O => None | S n' => resolve n' t q end
    | other => other
    end.
Proof. by destruct n. Qed.

Lemma resolve_grows n t t' p x :
  grows t t' → resolve n t p = Some x → resolve n t' p = Some x.
Proof.
  intros Hg. revert p. induction n as [|n IH]; intros p;
    rewrite !(resolve_unfold _ _ p); specialize (Hg p);
    destruct (t !! p) as [[| |q]|] eqn:Hp; try done;
    rewrite Hg; auto.
Qed.

Lemma resolve_grows_regular n t t' p :
  grows t t' → resolve n t' p = Some Regular → resolve n t p = Some Regular.
Proof.
  intros Hg. revert p. induction n as [|n IH]; intros p;
    rewrite !(resolve_unfold _ _ p); specialize (Hg p);
    destruct (t !! p) as [[| |q]|] eqn:Hp; try (rewrite Hg; done);
    try (rewrite Hg; auto; done);
    destruct Hg as [Hg|Hg]; rewrite Hg; done.
Qed.

Lemma isfile_grows t t' p : grows t t' → isfile t' p = isfile t p.
Proof.
  intros Hg. unfold isfile. apply bool_decide_ext. split.
  - by apply resolve_grows_regular.
  - by apply resolve_grows.
Qed.

Lemma isdir_grows t t' p : grows t t' → isdir t p = true → isdir t' p = true.
Proof.
  intros Hg. unfold isdir. rewrite !bool_decide_eq_true.
  by apply resolve_grows.
Qed.

Lemma isdir_absent t p : t !! p = None → isdir t p = false.
Proof.
  intros Hp. unfold isdir. apply bool_decide_eq_false.
  rewrite resolve_unfold, Hp. done.
Qed.

Lemma isdir_directory t p : t !! p = Some Directory → isdir t p = true.
Proof.
  intros Hp. unfold isdir. apply bool_decide_eq_true.
  by rewrite resolve_unfold, Hp.
Qed.

(** ** Effects that stay inside a preorder on worlds *)

Global Instance heap_kept_preorder l : PreOrder (heap_kept l).
Proof.
  split.
  - by intros w.
  - intros w1 w2 w3 H12 H23. unfold heap_kept in *. congruence.
Qed.

Global Instance nothing_executed_preorder : PreOrder nothing_executed.
Proof.
  split.
  - intros w. split; [done | apply grows_refl].
  - intros w1 w2 w3 [E12 G12] [E23 G23]. split; [congruence|].
    by eapply grows_trans.
Qed.

Global Instance unpublished_preorder : PreOrder unpublished.
Proof.
  split.
  - intros w. split; [apply grows_refl|]. exists []. by rewrite app_nil_r.
  - intros w1 w2 w3 [G12 (e1 & E1 & F1)] [G23 (e2 & E2 & F2)]. split.
    + by eapply grows_trans.
    + exists (e1 ++ e2). rewrite E2, E1, app_assoc. split; [done|].
      by apply Forall_app.
Qed.

Global Instance constructed_preorder : PreOrder constructed.
Proof.
  split.
  - intros w. repeat split; auto using grows_refl.
  - intros w1 w2 w3 (G12 & L12 & H12 & C12 & E12) (G23 & L23 & H23 & C23 & E23).
    repeat split; try congruence; eauto using grows_trans.
Qed.

Section Respects.
Context (R : world → world → Prop) `{!PreOrder R}.

Lemma respects_ret {A} (a : A) : respects R (mret a).
Proof. intros w. simpl. reflexivity. Qed.

Lemma respects_raise {A} (e : exn) : respects R (raise (A:=A) e).
Proof. intros w. simpl. reflexivity. Qed.

Lemma respects_lift_result {A} (r : result A) : respects R (lift_result r).
Proof. intros w. simpl. reflexivity. Qed.

Lemma respects_bind {A B} (m : M A) (f : A → M B) :
  respects R m → (∀ a, respects R (f a)) → respects R (m ≫= f).
Proof.
  intros Hm Hf w. specialize (Hm w). unfold mbind, M_bind.
  destruct (m w) as [[a|e] w1]; simpl in *; [|done].
  etrans; [exact Hm | apply Hf].
Qed.

Lemma respects_for_each {A} (l : list A) (body : A → M unit) :
  (∀ x, respects R (body x)) → respects R (for_each l body).
Proof.
  intros Hb. induction l as [|x xs IH]; simpl.
  - apply respects_ret.
  - apply respects_bind; auto.
Qed.

Lemma respects_dict_read l : respects R (dict_read l).
Proof. intros w. unfold dict_read. destruct (heap w !! l); simpl; reflexivity. Qed.

Lemma respects_dict_getitem l k : respects R (dict_getitem l k).
Proof.
  apply respects_bind; [apply respects_dict_read|].
  intros d. destruct (d !! k); [apply respects_ret | apply respects_raise].
Qed.

Lemma respects_dict_contains l k : respects R (dict_contains l k).
Proof.
  apply respects_bind; [apply respects_dict_read|]. intros d. apply respects_ret.
Qed.

Lemma respects_dict_viewkeys l : respects R (dict_viewkeys l).
Proof.
  apply respects_bind; [apply respects_dict_read|]. intros d. apply respects_ret.
Qed.

Lemma respects_os_path_isfile p : respects R (os_path_isfile p).
Proof. intros w. simpl. reflexivity. Qed.

Lemma respects_os_path_isdir p : respects R (os_path_isdir p).
Proof. intros w. simpl. reflexivity. Qed.

Lemma respects_config_get config section option :
  respects R (config_get config section option).
Proof.
  unfold config_get. destruct (config !! _); [apply respects_ret | apply respects_raise].
Qed.

Lemma respects_outputs_attr o name : respects R (outputs_attr o name).
Proof.
  unfold outputs_attr. destruct (o !! name); [apply respects_ret | apply respects_raise].
Qed.

Lemma respects_parse_pixel_spacing {float} (py_float : string → option float) s :
  respects R (parse_pixel_spacing py_float s).
Proof.
  unfold parse_pixel_spacing.
  repeat case_match; first [apply respects_ret | apply respects_raise].
Qed.

End Respects.

(** *** Primitives that change the world *)

Lemma heap_kept_dict_setitem l l' k v :
  l' ≠ l → respects (heap_kept l) (dict_setitem l' k v).
Proof.
  intros Hne w. unfold dict_setitem, heap_kept.
  destruct (heap w !! l'); simpl; [|done]. by rewrite lookup_insert_ne.
Qed.

Lemma heap_kept_Memory_cache l adapter mem op ps :
  respects (heap_kept l) (Memory_cache adapter mem op ps).
Proof.
  intros w. unfold Memory_cache, heap_kept.
  destruct (cache_lookup _ _); [done|]. by destruct (adapter op ps).
Qed.

Lemma heap_kept_os_makedirs l p : respects (heap_kept l) (os_makedirs p).
Proof. intros w. unfold os_makedirs, heap_kept. by destruct (fs w !! p). Qed.

Lemma heap_kept_os_remove l p : respects (heap_kept l) (os_remove p).
Proof. intros w. unfold os_remove, heap_kept. by destruct (fs w !! p) as [[]|]. Qed.

Lemma heap_kept_os_symlink l src dst : respects (heap_kept l) (os_symlink src dst).
Proof.
  intros w. unfold os_symlink, heap_kept.
  destruct src; try done. by destruct (fs w !! dst).
Qed.

Lemma heap_kept_logger_warn l msg : respects (heap_kept l) (logger_warn msg).
Proof. by intros w. Qed.

Lemma heap_kept_logger_info l msg : respects (heap_kept l) (logger_info msg).
Proof. by intros w. Qed.

Lemma unpublished_same_fs w w' :
  fs w' = fs w → syscalls w' = syscalls w → unpublished w w'.
Proof.
  intros Hf Hs. split; [rewrite Hf; apply grows_refl|].
  exists []. by rewrite app_nil_r.
Qed.

Lemma unpublished_copy_copy l : respects unpublished (copy_copy l).
Proof.
  intros w. unfold copy_copy.
  destruct (heap w !! l); by apply unpublished_same_fs.
Qed.

Lemma unpublished_dict_setitem l k v : respects unpublished (dict_setitem l k v).
Proof.
  intros w. unfold dict_setitem.
  destruct (heap w !! l); by apply unpublished_same_fs.
Qed.

Lemma unpublished_Memory_cache adapter mem op ps :
  respects unpublished (Memory_cache adapter mem op ps).
Proof.
  intros w. unfold Memory_cache.
  destruct (cache_lookup _ _); [by apply unpublished_same_fs|].
  destruct (adapter op ps); by apply unpublished_same_fs.
Qed.

Lemma unpublished_os_makedirs p : respects unpublished (os_makedirs p).
Proof.
  intros w. unfold os_makedirs.
  destruct (fs w !! p) eqn:Hp; [by apply unpublished_same_fs|].
  split; simpl; [by apply grows_makedirs|].
  exists [EvMakedirs p]. split; [done|]. repeat constructor. by exists p.
Qed.

Lemma unpublished_logger_warn msg : respects unpublished (logger_warn msg).
Proof. intros w. by apply unpublished_same_fs. Qed.

Lemma unpublished_logger_info msg : respects unpublished (logger_info msg).
Proof. intros w. by apply unpublished_same_fs. Qed.

Lemma nothing_executed_copy_copy l : respects nothing_executed (copy_copy l).
Proof.
  intros w. unfold copy_copy.
  destruct (heap w !! l); (split; [done | apply grows_refl]).
Qed.

Lemma nothing_executed_os_makedirs p : respects nothing_executed (os_makedirs p).
Proof.
  intros w. unfold os_makedirs.
  destruct (fs w !! p) eqn:Hp; (split; [done|]);
    [apply grows_refl | by apply grows_makedirs].
Qed.

Lemma nothing_executed_logger_warn msg : respects nothing_executed (logger_warn msg).
Proof. intros w. split; [done | apply grows_refl]. Qed.

Lemma nothing_executed_logger_info msg : respects nothing_executed (logger_info msg).
Proof. intros w. split; [done | apply grows_refl]. Qed.

Lemma constructed_os_makedirs p : respects constructed (os_makedirs p).
Proof.
  intros w. unfold os_makedirs.
  destruct (fs w !! p) eqn:Hp; repeat split; simpl;
    auto using grows_refl, grows_makedirs.
Qed.

Lemma constructed_logger_warn msg : respects constructed (logger_warn msg).
Proof.
  intros w. repeat split; simpl; auto using grows_refl.
  intros x Hx. apply elem_of_app. by left.
Qed.

Lemma constructed_logger_info msg : respects constructed (logger_info msg).
Proof.
  intros w. repeat split; simpl; auto using grows_refl.
  intros x Hx. apply elem_of_app. by left.
Qed.

Create HintDb respects.

#[local] Hint Resolve
  heap_kept_dict_setitem heap_kept_Memory_cache heap_kept_os_makedirs
  heap_kept_os_remove heap_kept_os_symlink heap_kept_logger_warn
  heap_kept_logger_info
  unpublished_copy_copy unpublished_dict_setitem unpublished_Memory_cache
  unpublished_os_makedirs unpublished_logger_warn unpublished_logger_info
  nothing_executed_copy_copy nothing_executed_os_makedirs
  nothing_executed_logger_warn nothing_executed_logger_info
  constructed_os_makedirs constructed_logger_warn constructed_logger_info
  : respects.

Create HintDb pipeline.

#[local] Hint Unfold
  _check_configured_directory _check_configured_file PipelineContext_init
  get_intensity_model resample register transform skullstrip apply_mask
  correct_biasfield standardize_intensityrange extract_features apply_rdf
  register_to_base dwi_adc_special_case publish_file publish
  : pipeline.

(** One step of a footprint proof, following the shape of the program. *)
Ltac respects_step :=
  lazymatch goal with
  | |- respects _ (mbind _ _) =>
      apply respects_bind; [typeclasses eauto | | intros ?]
  | |- respects _ (mret _) => apply respects_ret; typeclasses eauto
  | |- respects _ (raise _) => apply respects_raise; typeclasses eauto
  | |- respects _ (lift_result _) => apply respects_lift_result; typeclasses eauto
  | |- respects _ (for_each _ _) =>
      apply respects_for_each; [typeclasses eauto | intros ?]
  | |- respects _ (dict_read _) => apply respects_dict_read; typeclasses eauto
  | |- respects _ (dict_getitem _ _) => apply respects_dict_getitem; typeclasses eauto
  | |- respects _ (dict_contains _ _) => apply respects_dict_contains; typeclasses eauto
  | |- respects _ (dict_viewkeys _) => apply respects_dict_viewkeys; typeclasses eauto
  | |- respects _ (os_path_isfile _) => apply respects_os_path_isfile; typeclasses eauto
  | |- respects _ (os_path_isdir _) => apply respects_os_path_isdir; typeclasses eauto
  | |- respects _ (config_get _ _ _) => apply respects_config_get; typeclasses eauto
  | |- respects _ (outputs_attr _ _) => apply respects_outputs_attr; typeclasses eauto
  | |- respects _ (parse_pixel_spacing _ _) =>
      apply respects_parse_pixel_spacing; typeclasses eauto
  | |- respects _ (match ?x with _ => _ end) => destruct x
  | |- respects _ _ => solve [eauto with respects]
  end.

Ltac respects_auto := repeat (autounfold with pipeline; respects_step).

(** ** The caller's dictionary *)

(** Everything after the copy works on the copy. *)
Lemma publish_heap_kept {float} l (context : PipelineContext float) c p :
  respects (heap_kept l) (publish context c p).
Proof. respects_auto. Qed.

Lemma bind_assoc {A B C} (m : M A) (f : A → M B) (g : B → M C) w :
  ((m ≫= f) ≫= g) w = (m ≫= (λ a, f a ≫= g)) w.
Proof. unfold mbind, M_bind. by destruct (m w) as [[a|e] w1]. Qed.

Lemma copy_copy_fresh l w d :
  heap w !! l = Some d →
  ∃ l', l' ≠ l ∧
        copy_copy l w = (Ok l', set_heap (<[l' := d]> (heap w)) w).
Proof.
  intros Hl. exists (fresh (dom (heap w))). split.
  - intros Heq. apply (is_fresh (dom (heap w))). rewrite Heq.
    apply elem_of_dom. eauto.
  - unfold copy_copy. by rewrite Hl.
Qed.

(** C10.  [execute_pipeline] leaves the caller's mapping of sequence
    paths as it was: whatever the run does, and whether it returns or
    raises, the dictionary object that was passed in has the same
    bindings afterwards. *)
Theorem execute_pipeline_keeps_caller_mapping {float}
    (py_float : string → option float) (py_str : float → string)
    (abspath : string → string) (adapter : operation → kwargs → option outputs)
    (sequence_paths : nat) (config : gmap (string * string) string)
    (w : world) (d : dict) :
  heap w !! sequence_paths = Some d →
  heap (execute_pipeline py_float py_str abspath adapter sequence_paths config w).2
    !! sequence_paths = Some d.
Proof.
  intros Hd. unfold execute_pipeline, run_stages.
  rewrite bind_assoc.
  destruct (copy_copy_fresh _ _ _ Hd) as (l' & Hne & Hcopy).
  rewrite (bind_ok _ _ _ _ _ Hcopy).
  match goal with
  | |- heap (?m ?w1).2 !! _ = _ =>
      assert (Hr : respects (heap_kept sequence_paths) m) by respects_auto;
      specialize (Hr w1)
  end.
  unfold heap_kept in Hr. rewrite Hr. simpl.
  by rewrite lookup_insert_ne.
Qed.

(** ** Publication *)












(** ** Construction of the context *)

Lemma check_directory_existing abspath path name w :
  isdir (fs w) (abspath path) = true →
  _check_configured_directory abspath path name w = (Ok (abspath path), w).
Proof.
  intros Hd. unfold _check_configured_directory.
  erewrite bind_ok; [|reflexivity]. rewrite Hd. simpl.
  erewrite bind_ok; reflexivity.
Qed.

Lemma check_directory_missing abspath path name w :
  fs w !! abspath path = None →
  _check_configured_directory abspath path name w =
    (Ok (abspath path),
     set_fs (<[abspath path := Directory]> (fs w)) (EvMakedirs (abspath path))
            (add_log WARNING (directory_warning name (abspath path)) w)).
Proof.
  intros Hn. unfold _check_configured_directory.
  erewrite bind_ok; [|reflexivity]. rewrite (isdir_absent _ _ Hn). simpl.
  erewrite bind_ok; [reflexivity|].
  erewrite bind_ok; [|reflexivity].
  unfold os_makedirs. simpl. by rewrite Hn.
Qed.

Lemma check_file_existing abspath path name w :
  isfile (fs w) (abspath path) = true →
  _check_configured_file abspath path name w = (Ok (abspath path), w).
Proof.
  intros Hf. unfold _check_configured_file.
  erewrite bind_ok; [|reflexivity]. by rewrite Hf.
Qed.

Lemma check_file_missing abspath path name w :
  isfile (fs w) (abspath path) = false →
  _check_configured_file abspath path name w =
    (Raise (ValueError ("The configured " +:+ name +:+ " " +:+ abspath path +:+
                        " does not exist!")), w).
Proof.
  intros Hf. unfold _check_configured_file.
  erewrite bind_ok; [|reflexivity]. by rewrite Hf.
Qed.

Lemma check_directory_constructed abspath path name :
  respects constructed (_check_configured_directory abspath path name).
Proof. respects_auto. Qed.

Lemma check_file_constructed abspath path name :
  respects constructed (_check_configured_file abspath path name).
Proof. respects_auto. Qed.

Lemma init_constructed {float} (py_float : string → option float) abspath config :
  respects constructed (PipelineContext_init py_float abspath config).
Proof. respects_auto. Qed.




(** *** A missing file makes construction raise *)









(** *** Construction succeeds when the files are there *)

Lemma constructed_add_log w l msg : constructed w (add_log l msg w).
Proof.
  repeat split; simpl; auto using grows_refl.
  intros x Hx. apply elem_of_app. by left.
Qed.



Global Instance warned_preorder : PreOrder warned.
Proof.
  split.
  - intros w. split; [reflexivity|]. intros q Hq Hq'. done.
  - intros w1 w2 w3 [C12 W12] [C23 W23]. split; [by etrans|].
    intros q Hq1 Hq3. destruct (fs w2 !! q) eqn:Hq2.
    + destruct (W12 q Hq1) as [name Hname]; [by rewrite Hq2|].
      exists name. by apply (proj1 (proj2 C23)).
    + by apply W23.
Qed.

Lemma warned_same_fs w w' : constructed w w' → fs w' = fs w → warned w w'.
Proof. intros Hc Hf. split; [done|]. intros q Hq Hq'. by rewrite Hf in Hq'. Qed.

Lemma warned_check_directory abspath path name :
  respects warned (_check_configured_directory abspath path name).
Proof.
  intros w.
  pose proof (check_directory_constructed abspath path name w) as Hc.
  destruct (fs w !! abspath path) eqn:Hp.
  - apply warned_same_fs; [done|].
    unfold _check_configured_directory, os_makedirs, mbind, M_bind. simpl.
    destruct (isdir _ _); simpl; [done|]. by rewrite Hp.
  - split; [done|]. rewrite check_directory_missing by done. simpl.
    intros q Hq Hq'. exists name.
    destruct (decide (abspath path = q)) as [<-|Hne].
    + apply elem_of_app. right. apply list_elem_of_here.
    + by rewrite lookup_insert_ne in Hq'.
Qed.

Lemma warned_check_file abspath path name :
  respects warned (_check_configured_file abspath path name).
Proof.
  intros w. apply warned_same_fs; [apply check_file_constructed|].
  unfold _check_configured_file, mbind, M_bind. simpl.
  by destruct (isfile _ _).
Qed.

Lemma warned_logger_info msg : respects warned (logger_info msg).
Proof. intros w. apply warned_same_fs; [apply constructed_add_log | done]. Qed.

#[local] Hint Resolve warned_check_directory warned_check_file warned_logger_info
  : respects.





(** ** The registration step *)

Lemma Memory_cache_view adapter mem op ps w :
  (Memory_cache adapter mem op ps w).1 =
    match invoke_view adapter w mem op ps with
    | Some o => Ok o
    | None => Raise (ExternalToolError op)
    end.
Proof.
  unfold Memory_cache, invoke_view.
  destruct (cache_lookup _ _); [done|]. by destruct (adapter op ps).
Qed.

(** A memoised call does not change what any memoised call returns. *)
Lemma invoke_view_stable adapter mem op ps w mem' op' ps' :
  invoke_view adapter (Memory_cache adapter mem op ps w).2 mem' op' ps' =
  invoke_view adapter w mem' op' ps'.
Proof.
  unfold Memory_cache, invoke_view.
  destruct (cache_lookup (base_dir mem, op, ps) (cache_store w)) eqn:Hc; [done|].
  destruct (adapter op ps) as [o|] eqn:Ha; [|done].
  simpl. destruct (decide (_ = _)) as [Heq|Hne]; [|done].
  inversion Heq; subst. rewrite H0 in *. by rewrite Hc, Ha.
Qed.

Lemma Memory_cache_heap adapter mem op ps w :
  heap (Memory_cache adapter mem op ps w).2 = heap w.
Proof.
  unfold Memory_cache. destruct (cache_lookup _ _); [done|].
  by destruct (adapter op ps).
Qed.

Lemma register_returns {float} adapter (self : PipelineContext float)
    moving fixed w warped transform_file :
  registration_of adapter self w moving fixed = Some (warped, transform_file) →
  ∃ w', register adapter self moving fixed w
          = (Ok (PyStr warped, PyStr transform_file), w') ∧
        heap w' = heap w ∧
        ∀ m f, registration_of adapter self w' m f = registration_of adapter self w m f.
Proof.
  unfold registration_of. intros Hr.
  destruct (invoke_view adapter w (_mem self) Registration
              (register_kwargs self moving fixed)) as [o|] eqn:Hv; [|done].
  simpl in Hr.
  destruct (o !! "warped_file") as [wf|] eqn:Hwf; [|done]. simpl in Hr.
  destruct (o !! "transform") as [tf|] eqn:Htf; [|done]. simpl in Hr.
  inversion Hr; subst.
  pose proof (Memory_cache_view adapter (_mem self) Registration
                (register_kwargs self moving fixed) w) as H1.
  pose proof (Memory_cache_heap adapter (_mem self) Registration
                (register_kwargs self moving fixed) w) as H2.
  pose proof (invoke_view_stable adapter (_mem self) Registration
                (register_kwargs self moving fixed) w) as H3.
  rewrite Hv in H1.
  destruct (Memory_cache adapter (_mem self) Registration
              (register_kwargs self moving fixed) w) as [r w'] eqn:Hm.
  simpl in *. subst r. exists w'. split; [|split].
  - unfold register. rewrite (bind_ok _ _ _ _ _ Hm).
    unfold outputs_attr. rewrite Hwf, Htf. reflexivity.
  - done.
  - intros m f. by rewrite H3.
Qed.




(** ** The DWI/ADC special case *)

Lemma dict_contains_at l k w d :
  heap w !! l = Some d →
  dict_contains l k w = (Ok (bool_decide (k ∈ dom d)), w).
Proof. intros Hd. unfold dict_contains, dict_read, mbind, M_bind. by rewrite Hd. Qed.

Lemma dict_getitem_at l k w d v :
  heap w !! l = Some d → d !! k = Some v →
  dict_getitem l k w = (Ok v, w).
Proof.
  intros Hd Hv. unfold dict_getitem, dict_read, mbind, M_bind. by rewrite Hd, Hv.
Qed.

(** With ADC and no DWI among the sequences, the local [transform] is
    read before any assignment: the step raises, whatever the context,
    the tools and the base image are, and ADC is not registered. *)
Lemma adc_without_dwi_raises {float} adapter (context : PipelineContext float)
    (sequence_paths : nat) (fixed_image : pyval) (w : world) (d : dict) :
  heap w !! sequence_paths = Some d →
  DWI ∉ dom d → ADC ∈ dom d →
  dwi_adc_special_case adapter context sequence_paths fixed_image w
    = (Raise (UnboundLocalError "transform"), w).
Proof.
  intros Hd Hdwi Hadc. unfold dwi_adc_special_case.
  rewrite (bind_ok _ _ _ _ _ (dict_contains_at _ DWI _ _ Hd)).
  rewrite bool_decide_eq_false_2 by done.
  erewrite bind_ok; [|reflexivity].
  rewrite (bind_ok _ _ _ _ _ (dict_contains_at _ ADC _ _ Hd)).
  by rewrite bool_decide_eq_true_2.
Qed.

(** With both DWI and ADC among the sequences, DWI is registered to the
    base and what remains is to apply the transform of that registration
    to ADC: no registration of ADC is run. *)
Lemma adc_with_dwi_uses_transform {float} adapter (context : PipelineContext float)
    (sequence_paths : nat) (fixed_image dwi adc : pyval) (w : world) (d : dict)
    (warped transform_file : string) :
  heap w !! sequence_paths = Some d →
  d !! DWI = Some dwi → d !! ADC = Some adc →
  registration_of adapter context w dwi fixed_image = Some (warped, transform_file) →
  ∃ w1, register adapter context dwi fixed_image w
          = (Ok (PyStr warped, PyStr transform_file), w1) ∧
        dwi_adc_special_case adapter context sequence_paths fixed_image w =
          (applied ← transform adapter context adc (PyStr transform_file);
           dict_setitem sequence_paths ADC applied)
            (set_heap (<[sequence_paths := <[DWI := PyStr warped]> d]> (heap w1)) w1).
Proof.
  intros Hd Hdwi Hadc Hreg.
  destruct (register_returns _ _ _ _ _ _ _ Hreg) as (w1 & Hrun & Hheap & _).
  exists w1. split; [done|].
  set (d1 := <[DWI := PyStr warped]> d).
  set (w2 := set_heap (<[sequence_paths := d1]> (heap w1)) w1).
  assert (Hd2 : heap w2 !! sequence_paths = Some d1) by apply lookup_insert_eq.
  unfold dwi_adc_special_case.
  rewrite (bind_ok _ _ _ _ _ (dict_contains_at _ DWI _ _ Hd)).
  rewrite bool_decide_eq_true_2 by (apply elem_of_dom; eauto).
  erewrite (bind_ok _ _ w (Some (PyStr transform_file)) w2).
  - rewrite (bind_ok _ _ _ _ _ (dict_contains_at _ ADC _ _ Hd2)).
    rewrite bool_decide_eq_true_2
      by (apply elem_of_dom; unfold d1; rewrite lookup_insert_ne by done; eauto).
    rewrite bool_decide_eq_true_2 by done.
    erewrite bind_ok; [reflexivity|].
    apply (dict_getitem_at _ _ _ d1); [done|].
    unfold d1. by rewrite lookup_insert_ne.
  - rewrite (bind_ok _ _ _ _ _ (dict_getitem_at _ _ _ _ _ Hd Hdwi)).
    rewrite (bind_ok _ _ _ _ _ Hrun).
    erewrite bind_ok; [reflexivity|].
    unfold dict_setitem, w2, d1. by rewrite Hheap, Hd.
Qed.

(** C1.  On the sequences [t1_sag_tfe] and [adc], without [dwi], the run
    raises [UnboundLocalError] for the local [transform] after the
    resampling of the base: ADC is neither registered nor replaced in
    the working copy of the sequence paths. *)
Theorem adc_without_dwi_is_not_registered :
  (Demo.run Demo.adc_without_dwi).1 = Raise (UnboundLocalError "transform") ∧
  (fst <$> executed (Demo.run Demo.adc_without_dwi).2) = [MedpyResample] ∧
  (heap (Demo.run Demo.adc_without_dwi).2 !! 1 ≫= (.!! "adc")) = Some (PyStr "d.img").
Proof. vm_compute. repeat split; reflexivity. Qed.

(** ** Instances of the theorems on the concrete pipeline *)

Lemma selection_returns_first_present_witness :
  get_registration_base Demo.context Demo.three_sequences = Ok "t1_sag_tfe" ∧
  ∃ msg, get_skullstripping_base Demo.context Demo.adc_without_dwi
           = Raise (RuntimeError msg).
Proof.
  destruct (selection_returns_first_present Demo.context Demo.three_sequences)
    as (Hreg & _).
  destruct (selection_returns_first_present Demo.context Demo.adc_without_dwi)
    as (_ & _ & _ & Hskull).
  split.
  - apply Hreg. exists [], ["flair_tra"]. split; [reflexivity|].
    split; [by vm_compute|]. intros c Hc. by apply elem_of_nil in Hc.
  - apply Hskull. intros c Hc. apply list_elem_of_singleton in Hc as ->.
    by vm_compute.
Defined.

Lemma get_forest_exact_combination_witness :
  get_forest Demo.context Demo.three_sequences = Ok "/forests/forest.pklz" ∧
  get_forest Demo.context Demo.adc_without_dwi =
    Raise (ValueError "No forest file available for given sequences!").
Proof.
  split.
  - apply (get_forest_exact_combination Demo.context Demo.three_sequences).
    by vm_compute.
  - apply (get_forest_exact_combination Demo.context Demo.adc_without_dwi).
    by vm_compute.
Defined.


Lemma memoized_invoke_twice_witness :
  Memory_cache Demo.adapter Demo.memory BET Demo.bet_kwargs (Demo.world_with ∅)
    = (Ok Demo.bet_outputs, Demo.after_bet) ∧
  Memory_cache Demo.adapter Demo.memory BET Demo.bet_kwargs Demo.after_bet
    = (Ok Demo.bet_outputs, Demo.after_bet) ∧
  ∃ n, n ≤ 1 ∧
       executed (Memory_cache Demo.adapter Demo.memory BET Demo.bet_kwargs
                   Demo.after_bet).2 =
         executed (Demo.world_with ∅) ++ replicate n (BET, Demo.bet_kwargs).
Proof.
  assert (H : Memory_cache Demo.adapter Demo.memory BET Demo.bet_kwargs
                (Demo.world_with ∅) = (Ok Demo.bet_outputs, Demo.after_bet))
    by (by vm_compute).
  split; [exact H|].
  exact (memoized_invoke_twice Demo.adapter Demo.memory BET Demo.bet_kwargs
           (Demo.world_with ∅) Demo.after_bet Demo.bet_outputs H).
Defined.

Lemma execute_pipeline_keeps_caller_mapping_witness :
  heap (Demo.world_with Demo.three_sequences) !! 0 = Some Demo.three_sequences ∧
  heap (Demo.run Demo.three_sequences).2 !! 0 = Some Demo.three_sequences ∧
  heap (Demo.run Demo.adc_without_dwi).2 !! 0 = Some Demo.adc_without_dwi.
Proof.
  split; [by vm_compute|]. split.
  - apply (execute_pipeline_keeps_caller_mapping Demo.py_float Demo.py_str
             Demo.abspath Demo.adapter 0 Demo.config
             (Demo.world_with Demo.three_sequences)).
    by vm_compute.
  - apply (execute_pipeline_keeps_caller_mapping Demo.py_float Demo.py_str
             Demo.abspath Demo.adapter 0 Demo.config
             (Demo.world_with Demo.adc_without_dwi)).
    by vm_compute.
Defined.




(** * Further properties of the driver and the context *)

(** ** Invariants with facts about returned values *)

Lemma keeps_ret {A} (I : world → Prop) (a : A) (Φ : A → Prop) :
  Φ a → keeps I (mret a) Φ.
Proof. intros Ha w Hw. split; [done|]. by intros ? [= <-]. Qed.

Lemma keeps_raise {A} (I : world → Prop) (e : exn) (Φ : A → Prop) :
  keeps I (raise e) Φ.
Proof. intros w Hw. split; [done|]. by intros ? [=]. Qed.

Lemma keeps_lift_result {A} (I : world → Prop) (r : result A) :
  keeps I (lift_result r) (λ a, r = Ok a).
Proof. intros w Hw. split; [done|]. by intros a <-. Qed.

Lemma keeps_bind {A B} (I : world → Prop) (m : M A) (f : A → M B)
    (Φ : A → Prop) (Ψ : B → Prop) :
  keeps I m Φ → (∀ a, Φ a → keeps I (f a) Ψ) → keeps I (m ≫= f) Ψ.
Proof.
  intros Hm Hf w Hw. destruct (Hm w Hw) as [Hi Hv].
  unfold mbind, M_bind. destruct (m w) as [[a|e] w1]; simpl in *.
  - apply Hf; [by apply Hv | done].
  - split; [done|]. by intros ? [=].
Qed.

Lemma keeps_weaken {A} (I : world → Prop) (m : M A) (Φ Ψ : A → Prop) :
  keeps I m Φ → (∀ a, Φ a → Ψ a) → keeps I m Ψ.
Proof.
  intros Hm Himp w Hw. destruct (Hm w Hw) as [Hi Hv]. split; [done|]. auto.
Qed.

Lemma keeps_for_each {A} (I : world → Prop) (l : list A) (body : A → M unit) :
  (∀ x, x ∈ l → keeps I (body x) (λ _, True)) →
  keeps I (for_each l body) (λ _, True).
Proof.
  induction l as [|x xs IH]; intros Hb; simpl.
  - by apply keeps_ret.
  - eapply keeps_bind.
    + apply Hb. apply list_elem_of_here.
    + intros _ _. apply IH. intros y Hy. apply Hb. by apply list_elem_of_further.
Qed.

(** An invariant that is stable under a relation is kept by every
    computation whose effect stays inside the relation. *)
Lemma keeps_of_respects {A} (R : world → world → Prop) (I : world → Prop) (m : M A) :
  (∀ w w', I w → R w w' → I w') → respects R m → keeps I m (λ _, True).
Proof. intros Hst Hm w Hw. split; [|done]. eapply Hst; [done | apply Hm]. Qed.


(** *** The key set of the working copy *)

Lemma has_keys_stable l D w w' : has_keys l D w → heap_kept l w w' → has_keys l D w'.
Proof. intros (d & Hd & HD) Hk. exists d. unfold heap_kept in Hk. by rewrite Hk. Qed.

Lemma has_keys_dict_read l D :
  keeps (has_keys l D) (dict_read l) (λ d, dom d = D).
Proof.
  intros w (d & Hd & HD). unfold dict_read. rewrite Hd. simpl.
  split; [by exists d|]. by intros ? [= <-].
Qed.

Lemma has_keys_dict_getitem l D k :
  keeps (has_keys l D) (dict_getitem l k) (λ _, k ∈ D).
Proof.
  eapply keeps_bind; [apply has_keys_dict_read|].
  intros d Hd. destruct (d !! k) as [v|] eqn:Hv.
  - apply keeps_ret. rewrite <- Hd. apply elem_of_dom. eauto.
  - apply keeps_raise.
Qed.

Lemma has_keys_dict_contains l D k :
  keeps (has_keys l D) (dict_contains l k) (λ b, b = bool_decide (k ∈ D)).
Proof.
  eapply keeps_bind; [apply has_keys_dict_read|].
  intros d Hd. apply keeps_ret. by rewrite Hd.
Qed.

Lemma has_keys_dict_viewkeys l D :
  keeps (has_keys l D) (dict_viewkeys l) (λ keys, keys = D).
Proof.
  eapply keeps_bind; [apply has_keys_dict_read|].
  intros d Hd. by apply keeps_ret.
Qed.

(** Assigning to a key that is there does not change the key set. *)
Lemma has_keys_dict_setitem l D k v :
  k ∈ D → keeps (has_keys l D) (dict_setitem l k v) (λ _, True).
Proof.
  intros Hk w (d & Hd & HD). unfold dict_setitem. rewrite Hd. simpl.
  split; [|done]. exists (<[k := v]> d). split; [apply lookup_insert_eq|].
  rewrite dom_insert_L, HD. apply subseteq_union_1_L.
  by apply singleton_subseteq_l.
Qed.

(** One step of an invariant proof, following the shape of the program:
    reads of the dictionary give facts, everything that leaves the
    dictionary alone is passed over. *)
Ltac keeps_step l :=
  lazymatch goal with
  | |- keeps _ (dict_read l) _ => apply has_keys_dict_read
  | |- keeps _ (dict_getitem l _) _ => apply has_keys_dict_getitem
  | |- keeps _ (dict_contains l _) _ => apply has_keys_dict_contains
  | |- keeps _ (dict_viewkeys l) _ => apply has_keys_dict_viewkeys
  | |- keeps _ (lift_result _) _ => apply keeps_lift_result
  | |- keeps _ (mbind _ _) _ =>
      eapply keeps_bind; [|let H := fresh "Hval" in intros ? H]
  | |- keeps _ (match ?x with _ => _ end) _ => destruct x
  | |- @keeps ?A _ _ ?Φ =>
      tryif is_evar Φ then unify Φ (λ _ : A, True) else idtac;
      lazymatch goal with
      | |- keeps _ (mret _) _ => apply keeps_ret; try done
      | |- keeps _ (raise _) _ => apply keeps_raise
      | |- keeps _ (for_each _ _) _ => apply keeps_for_each; intros ? ?
      | |- keeps _ (dict_setitem l _ _) _ => by apply has_keys_dict_setitem
      | |- keeps _ _ _ =>
          apply (keeps_of_respects (heap_kept l));
            [apply has_keys_stable | solve [respects_auto]]
      end
  end.

Lemma get_forest_returns {float} (self : PipelineContext float) (sequences : dict)
    (forest : string) :
  get_forest self sequences = Ok forest → dom sequences = known_sequences.
Proof. unfold get_forest. by case_bool_decide. Qed.

(** X1.  A run of [execute_pipeline] returns only when the keys of the
    given sequence paths are exactly [flair_tra], [dw_tra_b1000_dmean]
    and [t1_sag_tfe]: the working copy keeps its key set through every
    stage, and the forest selection at the end accepts this key set
    alone.  For every other input, an [adc] or [dwi] sequence included,
    the run raises. *)
Theorem execute_pipeline_returns_only_for_known_sequences {float}
    (py_float : string → option float) (py_str : float → string)
    (abspath : string → string) (adapter : operation → kwargs → option outputs)
    (sequence_paths : nat) (config : gmap (string * string) string)
    (w w' : world) (d : dict) :
  heap w !! sequence_paths = Some d →
  execute_pipeline py_float py_str abspath adapter sequence_paths config w
    = (Ok tt, w') →
  (dom d = {[ "flair_tra"; "dw_tra_b1000_dmean"; "t1_sag_tfe" ]}) ∧
  (ADC ∉ dom d) ∧ (DWI ∉ dom d).
Proof.
  intros Hd Hrun.
  assert (HD : dom d = known_sequences).
  { unfold execute_pipeline in Hrun.
    apply bind_inv in Hrun as [(r & w1 & Hst & _)|(e & _ & ?)]; [|done].
    unfold run_stages in Hst.
    destruct (copy_copy_fresh _ _ _ Hd) as (l' & Hne & Hcopy).
    rewrite (bind_ok _ _ _ _ _ Hcopy) in Hst.
    match type of Hst with
    | ?m ?x = _ => set (rest := m) in Hst; set (w0 := x) in Hst
    end.
    assert (Hk : keeps (has_keys l' (dom d)) rest (λ _, dom d = known_sequences)).
    { unfold rest, register_to_base, dwi_adc_special_case.
      repeat keeps_step l'. cbv beta in *.
      match goal with
      | Hf : get_forest _ ?s = Ok _, Hs : dom ?s = _ |- _ =>
          rewrite <- Hs; exact (get_forest_returns _ _ _ Hf)
      end. }
    assert (Hw0 : has_keys l' (dom d) w0).
    { exists d. split; [apply lookup_insert_eq | done]. }
    destruct (Hk w0 Hw0) as [_ Hv]. apply (Hv r). by rewrite Hst. }
  split; [exact HD|]. rewrite HD. unfold known_sequences, ADC, DWI.
  rewrite !not_elem_of_union, !not_elem_of_singleton. done.
Qed.

Lemma demo_world_lookup (sequences : dict) :
  heap (Demo.world_with sequences) !! 0 = Some sequences.
Proof. apply lookup_singleton_eq. Qed.

Lemma demo_run_returns :
  execute_pipeline Demo.py_float Demo.py_str Demo.abspath Demo.adapter 0 Demo.config
    (Demo.world_with Demo.three_sequences)
  = (Ok tt, (Demo.run Demo.three_sequences).2).
Proof.
  assert (H : (Demo.run Demo.three_sequences).1 = Ok tt) by (vm_compute; reflexivity).
  unfold Demo.run in *.
  destruct (execute_pipeline _ _ _ _ _ _ _) as [r w2]. simpl in H. by subst.
Qed.

Lemma execute_pipeline_returns_only_for_known_sequences_witness :
  (dom Demo.three_sequences = {[ "flair_tra"; "dw_tra_b1000_dmean"; "t1_sag_tfe" ]}) ∧
  (ADC ∉ dom Demo.three_sequences) ∧ (DWI ∉ dom Demo.three_sequences).
Proof.
  exact (execute_pipeline_returns_only_for_known_sequences
           Demo.py_float Demo.py_str Demo.abspath Demo.adapter 0 Demo.config
           (Demo.world_with Demo.three_sequences)
           (Demo.run Demo.three_sequences).2 Demo.three_sequences
           (demo_world_lookup _) demo_run_returns).
Defined.

(** ** Splitting and stripping configuration values *)

Lemma split_comma_nonempty s : Str.split_comma s ≠ [].
Proof.
  destruct s as [|c rest]; simpl; [done|].
  destruct (Ascii.eqb c ","); [done|]. by destruct (Str.split_comma rest).
Qed.

Lemma split_comma_length s :
  length (Str.split_comma s) = S (count_char "," s).
Proof.
  induction s as [|c rest IH]; simpl; [done|].
  destruct (Ascii.eqb c ","); simpl; [by rewrite IH|].
  pose proof (split_comma_nonempty rest).
  destruct (Str.split_comma rest); [done|]. exact IH.
Qed.

Lemma split_comma_fields s :
  Forall (λ f, count_char "," f = 0) (Str.split_comma s).
Proof.
  induction s as [|c rest IH]; simpl; [by repeat constructor|].
  destruct (Ascii.eqb c ",") eqn:Hc; [by constructor|].
  destruct (Str.split_comma rest) as [|f fs]; [by repeat constructor; simpl; rewrite Hc|].
  apply Forall_cons in IH as [Hf Hfs]. constructor; [|done].
  simpl. by rewrite Hc, Hf.
Qed.

(** [','.join(s.split(','))] gives [s] back. *)
Lemma join_split_comma s : Str.join "," (Str.split_comma s) = s.
Proof.
  induction s as [|c rest IH]; simpl; [done|].
  pose proof (split_comma_nonempty rest) as Hne.
  destruct (Ascii.eqb c ",") eqn:Hc.
  - apply Ascii.eqb_eq in Hc as ->.
    destruct (Str.split_comma rest) as [|f fs]; [done|].
    simpl in *. by rewrite IH.
  - destruct (Str.split_comma rest) as [|f fs]; [done|].
    destruct fs as [|g gs]; simpl in *; by rewrite <- IH.
Qed.

Lemma lstrip_count c s : count_char c (Str.lstrip s) ≤ count_char c s.
Proof.
  induction s as [|a rest IH]; simpl; [done|].
  destruct (Str.is_space a); simpl; lia.
Qed.

Lemma rstrip_count c s : count_char c (Str.rstrip s) ≤ count_char c s.
Proof.
  induction s as [|a rest IH]; simpl; [done|].
  destruct (Str.rstrip rest) as [|b r] eqn:Hr.
  - destruct (Str.is_space a); simpl in *; lia.
  - simpl in *. lia.
Qed.

Lemma lstrip_first s a :
  first_char (Str.lstrip s) = Some a → Str.is_space a = false.
Proof.
  induction s as [|b rest IH]; simpl; [done|].
  destruct (Str.is_space b) eqn:Hb; [done|]. simpl. by intros [= <-].
Qed.

Lemma rstrip_last s a :
  last_char (Str.rstrip s) = Some a → Str.is_space a = false.
Proof.
  induction s as [|b rest IH]; simpl; [done|].
  destruct (Str.rstrip rest) as [|c r] eqn:Hr.
  - destruct (Str.is_space b) eqn:Hb; simpl; [done|]. by intros [= <-].
  - simpl. destruct r; exact IH.
Qed.

Lemma rstrip_first s a :
  first_char (Str.rstrip s) = Some a → first_char s = Some a.
Proof.
  destruct s as [|b rest]; simpl; [done|].
  destruct (Str.rstrip rest); [destruct (Str.is_space b)|]; done.
Qed.

Lemma strip_trimmed s : trimmed (Str.strip s).
Proof.
  unfold Str.strip. split.
  - intros a Ha. apply rstrip_first in Ha. by apply lstrip_first in Ha.
  - apply rstrip_last.
Qed.

Lemma lstrip_fixed s :
  (∀ a, first_char s = Some a → Str.is_space a = false) → Str.lstrip s = s.
Proof.
  destruct s as [|b rest]; simpl; [done|].
  intros H. by rewrite (H b).
Qed.

Lemma rstrip_idemp s : Str.rstrip (Str.rstrip s) = Str.rstrip s.
Proof.
  induction s as [|b rest IH]; simpl; [done|].
  destruct (Str.rstrip rest) as [|c r] eqn:Hr.
  - destruct (Str.is_space b) eqn:Hb; simpl; [done|]. by rewrite Hb.
  - simpl. simpl in IH. destruct (Str.rstrip r) as [|c' r'] eqn:Hr'.
    + destruct (Str.is_space c); [done|]. by rewrite IH.
    + by rewrite IH.
Qed.

(** Stripping a stripped string changes nothing. *)
Lemma strip_idemp s : Str.strip (Str.strip s) = Str.strip s.
Proof.
  unfold Str.strip.
  rewrite (lstrip_fixed (Str.rstrip (Str.lstrip s))).
  - apply rstrip_idemp.
  - intros a Ha. apply rstrip_first in Ha. by apply lstrip_first in Ha.
Qed.

Lemma strip_count c s : count_char c (Str.strip s) ≤ count_char c s.
Proof.
  unfold Str.strip. etrans; [apply rstrip_count | apply lstrip_count].
Qed.

(** ** What a constructed context is *)

Lemma config_get_inv config section option w v w1 :
  config_get config section option w = (Ok v, w1) →
  config !! (section, option) = Some v ∧ w1 = w.
Proof.
  unfold config_get. destruct (config !! (section, option)); [|done].
  by intros [= <- <-].
Qed.

Lemma check_directory_inv abspath path name w r w1 :
  _check_configured_directory abspath path name w = (Ok r, w1) →
  r = abspath path ∧ isdir (fs w1) r = true ∧ constructed w w1.
Proof.
  intros H.
  pose proof (check_directory_constructed abspath path name w) as Hc.
  rewrite H in Hc. simpl in Hc.
  destruct (isdir (fs w) (abspath path)) eqn:Hd.
  - rewrite check_directory_existing in H by done. by inversion H; subst.
  - destruct (fs w !! abspath path) eqn:Hp.
    + exfalso. revert H.
      unfold _check_configured_directory, os_makedirs, mbind, M_bind. simpl.
      rewrite Hd. simpl. by rewrite Hp.
    + rewrite check_directory_missing in H by done. inversion H; subst.
      split; [done|]. split; [|done].
      apply isdir_directory. simpl. apply lookup_insert_eq.
Qed.

Lemma check_file_inv abspath path name w r w1 :
  _check_configured_file abspath path name w = (Ok r, w1) →
  r = abspath path ∧ isfile (fs w) r = true ∧ w1 = w.
Proof.
  destruct (isfile (fs w) (abspath path)) eqn:Hf.
  - rewrite check_file_existing by done. by intros [= <- <-].
  - by rewrite check_file_missing.
Qed.

Lemma parse_pixel_spacing_inv {float} (py_float : string → option float)
    spacing w l w1 :
  parse_pixel_spacing py_float spacing w = (Ok l, w1) →
  w1 = w ∧ ∃ x y z, mapM py_float (Str.split_comma spacing) = Some [x; y; z] ∧
                    l = [x; y; z].
Proof.
  unfold parse_pixel_spacing.
  destruct (mapM py_float (Str.split_comma spacing)) as [[|x [|y [|z [|? ?]]]]|];
    try done.
  intros [= <- <-]. split; [done|]. by exists x, y, z.
Qed.

(** Everything a construction that returns has established. *)
Lemma init_returns_inv {float} (py_float : string → option float) abspath config
    w context w' :
  PipelineContext_init py_float abspath config w = (Ok context, w') →
  ∃ cache out spacing elastix rb sb model feature forest x y z,
    config !! ("common", "cache_dir") = Some cache ∧
    config !! ("common", "output_dir") = Some out ∧
    config !! ("resampling", "pixel_spacing") = Some spacing ∧
    config !! ("resampling", "elastix_parameter_file") = Some elastix ∧
    config !! ("resampling", "registration_base") = Some rb ∧
    config !! ("skullstripping", "base_image") = Some sb ∧
    config !! ("intensityrangestandardization", "model_dir") = Some model ∧
    config !! ("classification", "feature_config_file") = Some feature ∧
    config !! ("classification", "forest_dir") = Some forest ∧
    mapM py_float (Str.split_comma spacing) = Some [x; y; z] ∧
    context = {| _mem := {| base_dir := abspath cache |};
                 _output_dir := abspath out;
                 _pixel_spacing := [x; y; z];
                 _elastix_parameter_file := abspath elastix;
                 _registration_base_list := map Str.strip (Str.split_comma rb);
                 _skullstripping_base_list := map Str.strip (Str.split_comma sb);
                 _intensity_model_dir := abspath model;
                 _feature_config_file := abspath feature;
                 _forest_dir := abspath forest |} ∧
    constructed w w' ∧
    isfile (fs w') (abspath elastix) = true ∧
    isfile (fs w') (abspath feature) = true ∧
    isdir (fs w') (abspath cache) = true ∧
    isdir (fs w') (abspath out) = true ∧
    isdir (fs w') (abspath model) = true ∧
    isdir (fs w') (abspath forest) = true.
Proof.
  intros H.
  pose proof (init_constructed py_float abspath config w) as Hcon.
  rewrite H in Hcon. simpl in Hcon.
  unfold PipelineContext_init in H.
  apply bind_inv in H as [(cache & w1 & H1 & H)|(? & _ & ?)]; [|done].
  apply config_get_inv in H1 as [Hcache ->].
  apply bind_inv in H as [(r1 & w1 & H1 & H)|(? & _ & ?)]; [|done].
  apply check_directory_inv in H1 as (-> & D1 & C1).
  apply bind_inv in H as [([] & w1' & H1 & H)|(? & _ & ?)]; [|done].
  injection H1 as <-.
  apply bind_inv in H as [(out & w2 & H2 & H)|(? & _ & ?)]; [|done].
  apply config_get_inv in H2 as [Hout ->].
  apply bind_inv in H as [(r2 & w2 & H2 & H)|(? & _ & ?)]; [|done].
  apply check_directory_inv in H2 as (-> & D2 & C2).
  apply bind_inv in H as [([] & w2' & H2 & H)|(? & _ & ?)]; [|done].
  injection H2 as <-.
  apply bind_inv in H as [(spacing & w3 & H3 & H)|(? & _ & ?)]; [|done].
  apply config_get_inv in H3 as [Hspacing ->].
  apply bind_inv in H as [(xyz & w3 & H3 & H)|(? & _ & ?)]; [|done].
  apply parse_pixel_spacing_inv in H3 as (-> & x & y & z & Hxyz & ->).
  apply bind_inv in H as [(elastix & w3 & H3 & H)|(? & _ & ?)]; [|done].
  apply config_get_inv in H3 as [Helastix ->].
  apply bind_inv in H as [(r3 & w3 & H3 & H)|(? & _ & ?)]; [|done].
  apply check_file_inv in H3 as (-> & F3 & ->).
  apply bind_inv in H as [(rb & w4 & H4 & H)|(? & _ & ?)]; [|done].
  apply config_get_inv in H4 as [Hrb ->].
  apply bind_inv in H as [(sb & w4 & H4 & H)|(? & _ & ?)]; [|done].
  apply config_get_inv in H4 as [Hsb ->].
  apply bind_inv in H as [(model & w4 & H4 & H)|(? & _ & ?)]; [|done].
  apply config_get_inv in H4 as [Hmodel ->].
  apply bind_inv in H as [(r4 & w4 & H4 & H)|(? & _ & ?)]; [|done].
  apply check_directory_inv in H4 as (-> & D4 & C4).
  apply bind_inv in H as [([] & w4' & H4 & H)|(? & _ & ?)]; [|done].
  injection H4 as <-.
  apply bind_inv in H as [(feature & w5 & H5 & H)|(? & _ & ?)]; [|done].
  apply config_get_inv in H5 as [Hfeature ->].
  apply bind_inv in H as [(r5 & w5 & H5 & H)|(? & _ & ?)]; [|done].
  apply check_file_inv in H5 as (-> & F5 & ->).
  apply bind_inv in H as [(forest & w6 & H6 & H)|(? & _ & ?)]; [|done].
  apply config_get_inv in H6 as [Hforest ->].
  apply bind_inv in H as [(r6 & w6 & H6 & H)|(? & _ & ?)]; [|done].
  apply check_directory_inv in H6 as (-> & D6 & C6).
  injection H as <- <-.
  exists cache, out, spacing, elastix, rb, sb, model, feature, forest, x, y, z.
  assert (G4 : grows (fs w4) (fs w6)).
  { eapply grows_trans; [apply (constructed_add_log w4 INFO)|apply C6]. }
  assert (G2 : grows (fs w2) (fs w6)).
  { eapply grows_trans; [apply (constructed_add_log w2 INFO)|].
    eapply grows_trans; [apply C4 | exact G4]. }
  assert (G1 : grows (fs w1) (fs w6)).
  { eapply grows_trans; [apply (constructed_add_log w1 INFO)|].
    eapply grows_trans; [apply C2 | exact G2]. }
  repeat (split; [done|]).
  split; [by rewrite (isfile_grows _ _ _ G2)|].
  split; [by rewrite (isfile_grows _ _ _ G4)|].
  split; [by apply (isdir_grows _ _ _ G1)|].
  split; [by apply (isdir_grows _ _ _ G2)|].
  split; [by apply (isdir_grows _ _ _ G4)|].
  done.
Qed.

(** X2.  A context that construction returns is valid in the world it
    leaves: the cache, output, intensity-model and forest directories it
    names exist, the elastix parameter file and the feature
    configuration file it names exist, and it holds three pixel-spacing
    numbers.  Construction changes neither the heap nor the cache and
    runs no tool. *)
Theorem constructed_context_is_valid {float} (py_float : string → option float)
    (abspath : string → string) (config : gmap (string * string) string)
    (w w' : world) (context : PipelineContext float) :
  PipelineContext_init py_float abspath config w = (Ok context, w') →
  isdir (fs w') (base_dir (_mem context)) = true ∧
  isdir (fs w') (_output_dir context) = true ∧
  isdir (fs w') (_intensity_model_dir context) = true ∧
  isdir (fs w') (_forest_dir context) = true ∧
  isfile (fs w') (_elastix_parameter_file context) = true ∧
  isfile (fs w') (_feature_config_file context) = true ∧
  length (_pixel_spacing context) = 3 ∧
  heap w' = heap w ∧ cache_store w' = cache_store w ∧ executed w' = executed w.
Proof.
  intros H. apply init_returns_inv in H
    as (cache & out & spacing & elastix & rb & sb & model & feature & forest
        & x & y & z & _ & _ & _ & _ & _ & _ & _ & _ & _ & _ & -> & Hc
        & F1 & F2 & D1 & D2 & D3 & D4).
  destruct Hc as (_ & _ & Hh & Hs & He). simpl. repeat split; done.
Qed.

(** X3.  In a context that construction returns, each of the two
    candidate lists has one entry more than its configured value has
    commas, so it is never empty, and every candidate is free of commas
    and of whitespace at either end: stripping it again changes
    nothing. *)
Theorem constructed_candidates_are_trimmed {float} (py_float : string → option float)
    (abspath : string → string) (config : gmap (string * string) string)
    (w w' : world) (context : PipelineContext float) :
  PipelineContext_init py_float abspath config w = (Ok context, w') →
  ∃ rb sb,
    config !! ("resampling", "registration_base") = Some rb ∧
    config !! ("skullstripping", "base_image") = Some sb ∧
    length (_registration_base_list context) = S (count_char "," rb) ∧
    length (_skullstripping_base_list context) = S (count_char "," sb) ∧
    ∀ c, c ∈ _registration_base_list context ∨ c ∈ _skullstripping_base_list context →
         trimmed c ∧ Str.strip c = c ∧ count_char "," c = 0.
Proof.
  intros H. apply init_returns_inv in H
    as (cache & out & spacing & elastix & rb & sb & model & feature & forest
        & x & y & z & _ & _ & _ & _ & Hrb & Hsb & _ & _ & _ & _ & -> & _).
  exists rb, sb. simpl. rewrite !length_map, !split_comma_length.
  repeat (split; [done|]).
  assert (Hfield : ∀ s c, c ∈ map Str.strip (Str.split_comma s) →
                          trimmed c ∧ Str.strip c = c ∧ count_char "," c = 0).
  { intros s c Hc. apply list_elem_of_fmap in Hc as (f & -> & Hf).
    split; [apply strip_trimmed|]. split; [apply strip_idemp|].
    pose proof (split_comma_fields s) as Hall.
    rewrite Forall_forall in Hall. specialize (Hall f Hf).
    pose proof (strip_count "," f). lia. }
  intros c [Hc|Hc]; eapply Hfield; exact Hc.
Qed.

(** X4.  Construction returns only when the configured pixel spacing
    has exactly two commas and each of its three fields is accepted by
    [float]; the context then holds the three numbers in their order.  A
    pixel spacing with another number of commas makes the parsing raise
    a [ValueError]. *)
Theorem constructed_pixel_spacing_has_three_fields {float}
    (py_float : string → option float) (abspath : string → string) :
  (∀ (config : gmap (string * string) string) (w w' : world)
     (context : PipelineContext float),
     PipelineContext_init py_float abspath config w = (Ok context, w') →
     ∃ spacing a b c x y z,
       config !! ("resampling", "pixel_spacing") = Some spacing ∧
       count_char "," spacing = 2 ∧
       Str.split_comma spacing = [a; b; c] ∧
       py_float a = Some x ∧ py_float b = Some y ∧ py_float c = Some z ∧
       _pixel_spacing context = [x; y; z]) ∧
  (∀ (spacing : string) (w : world),
     count_char "," spacing ≠ 2 →
     ∃ msg, parse_pixel_spacing py_float spacing w = (Raise (ValueError msg), w)).
Proof.
  split.
  - intros config w w' context H. apply init_returns_inv in H
      as (cache & out & spacing & elastix & rb & sb & model & feature & forest
          & x & y & z & _ & _ & Hsp & _ & _ & _ & _ & _ & _ & Hxyz & -> & _).
    apply mapM_Some in Hxyz.
    pose proof (Forall2_length _ _ _ Hxyz) as Hlen.
    rewrite split_comma_length in Hlen. simpl in Hlen.
    destruct (Str.split_comma spacing) as [|a [|b [|c [|? ?]]]] eqn:Hsplit;
      try (by inversion Hxyz; subst;
           repeat match goal with H : Forall2 _ _ _ |- _ => inversion H; clear H; subst end).
    apply Forall2_cons in Hxyz as [Ha Hxyz].
    apply Forall2_cons in Hxyz as [Hb Hxyz].
    apply Forall2_cons in Hxyz as [Hc _].
    exists spacing, a, b, c, x, y, z. repeat split; try done. lia.
  - intros spacing w Hn. unfold parse_pixel_spacing.
    destruct (mapM py_float (Str.split_comma spacing)) as [l|] eqn:Hm; [|eauto].
    apply mapM_Some in Hm. pose proof (Forall2_length _ _ _ Hm) as Hlen.
    rewrite split_comma_length in Hlen.
    destruct l as [|x [|y [|z [|? ?]]]]; simpl in Hlen; eauto.
    lia.
Qed.

(** ** What a run touches in the file system *)

Global Instance fs_same_except_preorder o1 o2 : PreOrder (fs_same_except o1 o2).
Proof.
  split.
  - by intros w p _ _.
  - intros w1 w2 w3 H12 H23 p Hp1 Hp2. by rewrite H23, H12.
Qed.





(** ** Which tools a step runs *)

Global Instance ran_only_preorder A : PreOrder (ran_only A).
Proof.
  split.
  - intros w. exists []. split; [by rewrite app_nil_r|].
    intros op ps Hin. by apply elem_of_nil in Hin.
  - intros w1 w2 w3 (e1 & E1 & A1) (e2 & E2 & A2). exists (e1 ++ e2).
    split; [by rewrite E2, E1, app_assoc|].
    intros op ps Hin. apply elem_of_app in Hin as [Hin|Hin]; auto.
Qed.

Lemma ran_only_same A w w' : executed w' = executed w → ran_only A w w'.
Proof.
  intros H. exists []. split; [by rewrite app_nil_r|].
  intros op ps Hin. by apply elem_of_nil in Hin.
Qed.

Lemma ran_only_Memory_cache (A : operation → kwargs → Prop) adapter mem op ps :
  A op ps → respects (ran_only A) (Memory_cache adapter mem op ps).
Proof.
  intros HA w. unfold Memory_cache.
  destruct (cache_lookup _ _); [by apply ran_only_same|].
  assert (Hone : ∀ op' ps', (op', ps') ∈ [(op, ps)] → A op' ps').
  { intros op' ps' Hin. apply list_elem_of_singleton in Hin. by inversion Hin; subst. }
  destruct (adapter op ps); exists [(op, ps)]; done.
Qed.

Lemma ran_only_dict_setitem A l k v : respects (ran_only A) (dict_setitem l k v).
Proof.
  intros w. unfold dict_setitem. destruct (heap w !! l); by apply ran_only_same.
Qed.

Lemma ran_only_register {float} (A : operation → kwargs → Prop) adapter
    (self : PipelineContext float) moving fixed :
  A Registration (register_kwargs self moving fixed) →
  respects (ran_only A) (register adapter self moving fixed).
Proof.
  intros HA. unfold register.
  apply respects_bind; [typeclasses eauto | by apply ran_only_Memory_cache |].
  intros o. repeat respects_step.
Qed.

Lemma ran_only_transform {float} (A : operation → kwargs → Prop) adapter
    (self : PipelineContext float) moving transform_file :
  (∀ ps, A ApplyWarp ps) →
  respects (ran_only A) (transform adapter self moving transform_file).
Proof.
  intros HA. unfold transform.
  apply respects_bind; [typeclasses eauto | by apply ran_only_Memory_cache |].
  intros o. repeat respects_step.
Qed.

(** The rule for sequencing, with the first computation's outcome at hand. *)
Lemma bind_within (R : world → world → Prop) `{!PreOrder R} {A B}
    (m : M A) (f : A → M B) (w : world) :
  R w (m w).2 →
  (∀ a w1, m w = (Ok a, w1) → R w1 (f a w1).2) →
  R w ((m ≫= f) w).2.
Proof.
  intros Hm Hf. unfold mbind, M_bind.
  destruct (m w) as [[a|e] w1] eqn:Hmw; simpl in *; [|done].
  etrans; [exact Hm | by apply Hf].
Qed.

Lemma outputs_attr_value o name w v w1 :
  outputs_attr o name w = (Ok v, w1) → ∃ s, v = PyStr s.
Proof.
  unfold outputs_attr. destruct (o !! name) as [s|]; [|done].
  intros [= <- _]. eauto.
Qed.

(** What [register] returns are two paths. *)
Lemma register_value {float} adapter (self : PipelineContext float) moving fixed
    w a b w1 :
  register adapter self moving fixed w = (Ok (a, b), w1) →
  ∃ s t, a = PyStr s ∧ b = PyStr t.
Proof.
  unfold register. intros H.
  apply bind_inv in H as [(o & w2 & _ & H)|(? & _ & ?)]; [|done].
  apply bind_inv in H as [(x & w3 & Hx & H)|(? & _ & ?)]; [|done].
  apply bind_inv in H as [(y & w4 & Hy & H)|(? & _ & ?)]; [|done].
  apply outputs_attr_value in Hx as [s ->].
  apply outputs_attr_value in Hy as [t ->].
  injection H as <- <- _. eauto.
Qed.

Lemma dict_contains_inv l k w b w1 :
  dict_contains l k w = (Ok b, w1) →
  w1 = w ∧ ∃ d, heap w !! l = Some d ∧ b = bool_decide (k ∈ dom d).
Proof.
  unfold dict_contains, dict_read, mbind, M_bind.
  destruct (heap w !! l) as [d|]; [|done]. intros [= <- <-]. eauto.
Qed.

Lemma dict_getitem_inv l k w v w1 :
  dict_getitem l k w = (Ok v, w1) →
  w1 = w ∧ ∃ d, heap w !! l = Some d ∧ d !! k = Some v.
Proof.
  unfold dict_getitem, dict_read, mbind, M_bind.
  destruct (heap w !! l) as [d|]; [|done].
  destruct (d !! k) as [x|] eqn:Hx; [|done]. intros [= <- <-]. eauto.
Qed.

(** X6.  The tools that the DWI/ADC step runs are, at most, the
    registration of the DWI entry to the base and an ApplyWarp: every
    registration it runs has the path bound to [dwi] as its moving
    image.  The branch that would register ADC on its own (lines 51-53)
    is never taken, since a transform that [register] returned is never
    [None]. *)
Theorem dwi_adc_step_registers_only_dwi {float}
    (adapter : operation → kwargs → option outputs)
    (context : PipelineContext float) (sequence_paths : nat)
    (fixed_image : pyval) (w : world) :
  ∃ evs,
    executed (dwi_adc_special_case adapter context sequence_paths fixed_image w).2
      = executed w ++ evs ∧
    ∀ op ps, (op, ps) ∈ evs →
      op = ApplyWarp ∨
      (op = Registration ∧
       ∃ d dwi, heap w !! sequence_paths = Some d ∧ d !! DWI = Some dwi ∧
                ps = register_kwargs context dwi fixed_image).
Proof.
  set (A := λ (op : operation) (ps : kwargs),
         op = ApplyWarp ∨
         (op = Registration ∧
          ∃ d dwi, heap w !! sequence_paths = Some d ∧ d !! DWI = Some dwi ∧
                   ps = register_kwargs context dwi fixed_image)).
  change (ran_only A w
            (dwi_adc_special_case adapter context sequence_paths fixed_image w).2).
  unfold dwi_adc_special_case.
  apply bind_within; [typeclasses eauto | apply respects_dict_contains; typeclasses eauto |].
  intros has_dwi w1 H1. apply dict_contains_inv in H1 as (-> & d & Hd & ->).
  apply bind_within; [typeclasses eauto | |].
  - destruct (bool_decide (DWI ∈ dom d)); [|by apply respects_ret; typeclasses eauto].
    apply bind_within;
      [typeclasses eauto | apply respects_dict_getitem; typeclasses eauto |].
    intros moving w1 H1. apply dict_getitem_inv in H1 as (-> & d' & Hd' & Hdwi).
    rewrite Hd in Hd'. injection Hd' as <-.
    apply (respects_bind (ran_only A)).
    + apply ran_only_register. right. split; [done|]. by exists d, moving.
    + intros [warped transform_file].
      apply respects_bind; [typeclasses eauto | apply ran_only_dict_setitem |].
      intros _. apply respects_ret. typeclasses eauto.
  - intros transform_local w2 H2.
    assert (Hstr : ∀ t, transform_local = Some t → t ≠ PyNone).
    { intros t ->. destruct (bool_decide (DWI ∈ dom d)).
      - apply bind_inv in H2 as [(moving & w3 & _ & H2)|(? & _ & ?)]; [|done].
        apply bind_inv in H2 as [([a b] & w4 & Hreg & H2)|(? & _ & ?)]; [|done].
        apply bind_inv in H2 as [([] & w5 & _ & H2)|(? & _ & ?)]; [|done].
        injection H2 as <- _.
        by apply register_value in Hreg as (s & t' & _ & ->).
      - by injection H2. }
    apply bind_within;
      [typeclasses eauto | apply respects_dict_contains; typeclasses eauto |].
    intros has_adc w3 H3. apply dict_contains_inv in H3 as (-> & _).
    destruct has_adc; [|by apply respects_ret; typeclasses eauto].
    destruct transform_local as [t|]; [|by apply respects_raise; typeclasses eauto].
    rewrite bool_decide_eq_true_2 by (by apply Hstr).
    apply respects_bind;
      [typeclasses eauto | apply respects_dict_getitem; typeclasses eauto |].
    intros moving. apply (respects_bind (ran_only A)).
    + apply ran_only_transform. intros ps. by left.
    + intros warped. apply ran_only_dict_setitem.
Qed.

Lemma register_world {float} adapter (self : PipelineContext float) moving fixed w :
  (register adapter self moving fixed w).2 =
  (Memory_cache adapter (_mem self) Registration
     (register_kwargs self moving fixed) w).2.
Proof.
  unfold register, mbind, M_bind.
  destruct (Memory_cache _ _ _ _ w) as [[o|e] w1]; [|done]. simpl.
  unfold outputs_attr.
  destruct (o !! "warped_file"); [|done]. simpl.
  by destruct (o !! "transform").
Qed.

(** X7.  With DWI and ADC among the sequences, when the registration of
    the DWI entry to the base and the warp of the ADC entry by the
    transform of that registration yield outputs, the step returns; it
    binds [dwi] to the warped DWI image and [adc] to the image that
    ApplyWarp gives for the ADC entry under the DWI transform, and
    changes nothing else on the heap. *)
Theorem dwi_adc_step_warps_adc_with_dwi_transform {float}
    (adapter : operation → kwargs → option outputs)
    (context : PipelineContext float) (sequence_paths : nat)
    (fixed_image dwi adc : pyval) (w : world) (d : dict)
    (warped_dwi transform_file warped_adc : string) (o : outputs) :
  heap w !! sequence_paths = Some d →
  d !! DWI = Some dwi → d !! ADC = Some adc →
  registration_of adapter context w dwi fixed_image
    = Some (warped_dwi, transform_file) →
  invoke_view adapter w (_mem context) ApplyWarp
    (keywords [("moving_image", ArgVal adc);
               ("transform_file", ArgVal (PyStr transform_file))]) = Some o →
  o !! "warped_file" = Some warped_adc →
  ∃ w',
    dwi_adc_special_case adapter context sequence_paths fixed_image w = (Ok tt, w') ∧
    heap w' = <[sequence_paths :=
                  <[ADC := PyStr warped_adc]> (<[DWI := PyStr warped_dwi]> d)]> (heap w).
Proof.
  intros Hd Hdwi Hadc Hreg Hview Hwarped.
  destruct (adc_with_dwi_uses_transform adapter context sequence_paths fixed_image
              dwi adc w d warped_dwi transform_file Hd Hdwi Hadc Hreg)
    as (w1 & Hrun & ->).
  assert (Hw1 : w1 = (Memory_cache adapter (_mem context) Registration
                        (register_kwargs context dwi fixed_image) w).2).
  { rewrite <- register_world. by rewrite Hrun. }
  set (d1 := <[DWI := PyStr warped_dwi]> d).
  set (w2 := set_heap (<[sequence_paths := d1]> (heap w1)) w1).
  set (ps := keywords [("moving_image", ArgVal adc);
                       ("transform_file", ArgVal (PyStr transform_file))]) in *.
  assert (Hview2 : invoke_view adapter w2 (_mem context) ApplyWarp ps = Some o).
  { change (invoke_view adapter w1 (_mem context) ApplyWarp ps = Some o).
    by rewrite Hw1, invoke_view_stable. }
  pose proof (Memory_cache_view adapter (_mem context) ApplyWarp ps w2) as Hres.
  pose proof (Memory_cache_heap adapter (_mem context) ApplyWarp ps w2) as Hheap.
  rewrite Hview2 in Hres.
  destruct (Memory_cache adapter (_mem context) ApplyWarp ps w2) as [r w3] eqn:Hm.
  simpl in Hres, Hheap. subst r.
  exists (set_heap (<[sequence_paths := <[ADC := PyStr warped_adc]> d1]> (heap w3)) w3).
  split.
  - unfold transform. fold ps.
    rewrite bind_assoc. rewrite (bind_ok _ _ _ _ _ Hm).
    unfold outputs_attr. rewrite Hwarped.
    unfold dict_setitem, mbind, M_bind, mret, M_ret. simpl.
    rewrite Hheap. simpl. by rewrite lookup_insert_eq.
  - simpl. rewrite Hheap. simpl. rewrite insert_insert_eq.
    f_equal. rewrite Hw1. apply Memory_cache_heap.
Qed.

(** ** A stage that has run once is answered from the cache *)

Global Instance stage_effect_preorder : PreOrder stage_effect.
Proof.
  split.
  - intros w. split; [by intros k o|done].
  - intros w1 w2 w3 [C12 H12] [C23 H23]. split; [|congruence].
    intros k o Hk. by apply C23, C12.
Qed.

Lemma stage_effect_Memory_cache adapter mem op ps :
  respects stage_effect (Memory_cache adapter mem op ps).
Proof.
  intros w. unfold Memory_cache.
  destruct (cache_lookup (base_dir mem, op, ps) (cache_store w)) eqn:Hc;
    [reflexivity|].
  destruct (adapter op ps); [|split; [by intros k o'|done]]. split; [|done].
  intros k o' Hk. simpl. destruct (decide (k = _)) as [->|]; [|done].
  by rewrite Hc in Hk.
Qed.

#[local] Hint Resolve stage_effect_Memory_cache : respects.

Lemma replays_ret {A} (a : A) : replays (mret a).
Proof. intros w a' w1 [= <- <-] w2 _ _. done. Qed.

Lemma replays_raise {A} (e : exn) : replays (raise (A:=A) e).
Proof. by intros w a w1. Qed.

Lemma replays_bind {A B} (m : M A) (f : A → M B) :
  replays m → respects stage_effect m →
  (∀ a, replays (f a)) → (∀ a, respects stage_effect (f a)) →
  replays (m ≫= f).
Proof.
  intros Hm Hme Hf Hfe w b w1 H w2 Hc Hh.
  apply bind_inv in H as [(a & wm & Hmw & Hfw)|(? & _ & ?)]; [|done].
  pose proof (Hme w) as [_ Hheap]. rewrite Hmw in Hheap. simpl in Hheap.
  pose proof (Hfe a wm) as [Hcf _]. rewrite Hfw in Hcf. simpl in Hcf.
  rewrite (bind_ok _ _ _ _ _ (Hm w a wm Hmw w2
             (λ k o Hk, Hc k o (Hcf k o Hk)) Hh)).
  apply (Hf a wm b w1 Hfw w2 Hc). congruence.
Qed.

Lemma replays_Memory_cache adapter mem op ps :
  replays (Memory_cache adapter mem op ps).
Proof.
  intros w o w1 H w2 Hc _.
  apply Memory_cache_hit, Hc.
  revert H. unfold Memory_cache.
  destruct (cache_lookup _ (cache_store w)) as [o'|] eqn:Hl.
  - by intros [= <- <-].
  - destruct (adapter op ps); [|done]. intros [= <- <-]. apply cache_lookup_head.
Qed.

Lemma replays_outputs_attr o name : replays (outputs_attr o name).
Proof.
  unfold outputs_attr. destruct (o !! name); [apply replays_ret | apply replays_raise].
Qed.

Lemma replays_dict_read l : replays (dict_read l).
Proof.
  intros w d w1 H w2 _ Hh. revert H. unfold dict_read. rewrite Hh.
  destruct (heap w !! l); [|done]. by intros [= <- _].
Qed.

Ltac replays_step :=
  lazymatch goal with
  | |- replays (mbind _ _) =>
      apply replays_bind; [|solve [respects_auto]|intros ?|intros ?; solve [respects_auto]]
  | |- replays (mret _) => apply replays_ret
  | |- replays (Memory_cache _ _ _ _) => apply replays_Memory_cache
  | |- replays (outputs_attr _ _) => apply replays_outputs_attr
  | |- replays (dict_read _) => apply replays_dict_read
  end.

(** X8.  Each stage method is answered from the cache once it has run:
    after a call that returned a value, the same call returns the same
    value, runs no tool and changes nothing, in every later world that
    kept the cache entries (and, for feature extraction, the sequence
    paths).  This holds for the stages of two chained tool calls as
    well. *)
Theorem stages_replay_from_cache {float} (py_str : float → string)
    (adapter : operation → kwargs → option outputs)
    (self : PipelineContext float) (a b c : pyval) (sequence_paths : nat) :
  replays (resample py_str adapter self a) ∧
  replays (register adapter self a b) ∧
  replays (transform adapter self a b) ∧
  replays (skullstrip adapter self a) ∧
  replays (apply_mask adapter self a b) ∧
  replays (correct_biasfield adapter self a b) ∧
  replays (standardize_intensityrange adapter self a b c) ∧
  replays (extract_features adapter self sequence_paths a) ∧
  replays (apply_rdf adapter self a b c).
Proof.
  repeat split;
    unfold resample, register, transform, skullstrip, apply_mask,
           correct_biasfield, standardize_intensityrange, extract_features,
           apply_rdf;
    repeat replays_step.
Qed.

(** ** The loops over all sequences *)

(** The named loops are the ones of the driver. *)
Lemma run_stages_loops {float}
    (py_float : string → option float) (py_str : float → string)
    (abspath : string → string) (adapter : operation → kwargs → option outputs)
    (sequence_paths : nat) (config : gmap (string * string) string) (w : world) :
  run_stages py_float py_str abspath adapter sequence_paths config w =
    (sequence_paths ← copy_copy sequence_paths;
     context ← PipelineContext_init py_float abspath config;
     seqs ← dict_read sequence_paths;
     fixed_image_key ← lift_result (get_registration_base context seqs);
     v ← dict_getitem sequence_paths fixed_image_key;
     fixed_image ← resample py_str adapter context v;
     dict_setitem sequence_paths fixed_image_key fixed_image;;
     register_to_base adapter context sequence_paths fixed_image_key fixed_image;;
     dwi_adc_special_case adapter context sequence_paths fixed_image;;
     seqs ← dict_read sequence_paths;
     skullstrip_base_key ← lift_result (get_skullstripping_base context seqs);
     v ← dict_getitem sequence_paths skullstrip_base_key;
     mask ← skullstrip adapter context v;
     apply_mask_to_all adapter context sequence_paths mask;;
     correct_and_standardize_all adapter context sequence_paths mask;;
     features ← extract_features adapter context sequence_paths mask;
     seqs ← dict_read sequence_paths;
     forest ← lift_result (get_forest context seqs);
     '(classification_image, probability_image) ←
       apply_rdf adapter context (PyStr forest) features mask;
     mret (context, classification_image, probability_image)) w.
Proof.
  unfold run_stages, apply_mask_to_all, correct_and_standardize_all, mbind, M_bind.
  repeat (case_match; simplify_eq; try done).
Qed.

Global Instance same_answers_preorder adapter : PreOrder (same_answers adapter).
Proof.
  split.
  - by intros w.
  - intros w1 w2 w3 [F12 V12] [F23 V23]. split; [congruence|].
    intros mem op ps. by rewrite V23, V12.
Qed.

Lemma same_answers_set_heap adapter h w : same_answers adapter w (set_heap h w).
Proof. by split. Qed.

(** A memoised call that has an answer returns it, and no answer changes. *)
Lemma Memory_cache_answers adapter mem op ps w o :
  invoke_view adapter w mem op ps = Some o →
  ∃ w1, Memory_cache adapter mem op ps w = (Ok o, w1) ∧
        heap w1 = heap w ∧ same_answers adapter w w1.
Proof.
  intros Hv.
  pose proof (Memory_cache_view adapter mem op ps w) as Hres.
  pose proof (Memory_cache_heap adapter mem op ps w) as Hheap.
  pose proof (invoke_view_stable adapter mem op ps w) as Hst.
  rewrite Hv in Hres.
  assert (Hfs : fs (Memory_cache adapter mem op ps w).2 = fs w).
  { unfold Memory_cache. destruct (cache_lookup _ _); [done|].
    by destruct (adapter op ps). }
  destruct (Memory_cache adapter mem op ps w) as [r w1]. simpl in *. subst r.
  exists w1. repeat split; done.
Qed.

Lemma masked_of_answers {float} adapter (self : PipelineContext float) w w1 v mask :
  same_answers adapter w w1 →
  masked_of adapter self w1 v mask = masked_of adapter self w v mask.
Proof. intros [_ Hv]. unfold masked_of. by rewrite Hv. Qed.

Lemma apply_mask_returns {float} adapter (self : PipelineContext float) w v mask m :
  masked_of adapter self w v mask = Some m →
  ∃ w1, apply_mask adapter self v mask w = (Ok (PyStr m), w1) ∧
        heap w1 = heap w ∧ same_answers adapter w w1.
Proof.
  unfold masked_of. intros H.
  destruct (invoke_view adapter w (_mem self) ApplyMask _) as [o|] eqn:Hv; [|done].
  simpl in H.
  destruct (Memory_cache_answers _ _ _ _ _ _ Hv) as (w1 & Hrun & Hheap & Hsame).
  exists w1. split; [|done].
  unfold apply_mask. rewrite (bind_ok _ _ _ _ _ Hrun).
  unfold outputs_attr. by rewrite H.
Qed.

(** A loop that replaces the entry of each key by what [view] gives for it. *)
Lemma update_loop adapter (l : nat) (body : string → M unit)
    (view : world → string → pyval → option pyval) :
  (∀ w w1 k v, same_answers adapter w w1 → view w1 k v = view w k v) →
  (∀ w d k v x,
     heap w !! l = Some d → d !! k = Some v → view w k v = Some x →
     ∃ w1, body k w = (Ok tt, w1) ∧
           heap w1 = <[l := <[k := x]> d]> (heap w) ∧
           same_answers adapter w w1) →
  ∀ keys w d,
    NoDup keys →
    heap w !! l = Some d →
    (∀ k, k ∈ keys → ∃ v, d !! k = Some v ∧ is_Some (view w k v)) →
    ∃ w' d',
      for_each keys body w = (Ok tt, w') ∧
      heap w' = <[l := d']> (heap w) ∧
      same_answers adapter w w' ∧
      (∀ k, k ∉ keys → d' !! k = d !! k) ∧
      (∀ k v, k ∈ keys → d !! k = Some v →
              ∃ x, view w k v = Some x ∧ d' !! k = Some x).
Proof.
  intros Hview Hbody.
  induction keys as [|key keys IH]; intros w d Hnd Hd Hall.
  - exists w, d. simpl. split; [done|]. split; [by rewrite insert_id|].
    split; [done|]. split; [done|]. intros k v Hk. by apply elem_of_nil in Hk.
  - apply NoDup_cons in Hnd as [Hkey Hnd].
    destruct (Hall key) as (v & Hv & [x Hx]); [apply list_elem_of_here|].
    destruct (Hbody w d key v x Hd Hv Hx) as (w1 & Hrun & Hheap & Hsame).
    set (d1 := <[key := x]> d) in *.
    destruct (IH w1 d1 Hnd) as (w' & d' & Hloop & Hheap' & Hsame' & Hother & Hdone).
    { rewrite Hheap. apply lookup_insert_eq. }
    { intros k Hk.
      destruct (Hall k) as (v' & Hv' & Hx'); [by apply list_elem_of_further|].
      exists v'. split.
      - unfold d1. rewrite lookup_insert_ne; [done|]. by intros ->.
      - by rewrite (Hview w w1). }
    exists w', d'. split; [|split; [|split; [|split]]].
    + simpl. by rewrite (bind_ok _ _ _ _ _ Hrun).
    + rewrite Hheap', Hheap. apply insert_insert_eq.
    + by etrans.
    + intros k Hk. apply not_elem_of_cons in Hk as [Hne Hk].
      rewrite (Hother k Hk). unfold d1. by rewrite lookup_insert_ne.
    + intros k v' Hk Hv'. apply elem_of_cons in Hk as [->|Hk].
      * rewrite Hv in Hv'. injection Hv' as <-. exists x. split; [done|].
        rewrite (Hother key Hkey). apply lookup_insert_eq.
      * assert (Hne : key ≠ k) by (by intros ->).
        destruct (Hdone k v' Hk) as (x' & Hx' & Hd').
        { unfold d1. by rewrite lookup_insert_ne. }
        exists x'. split; [|done]. by rewrite <- (Hview w w1).
Qed.

Lemma update_loop_dom (d d' : dict) (keys : list string)
    (view : string → pyval → option pyval) :
  (∀ k, k ∈ keys → k ∈ dom d) →
  (∀ k, k ∉ keys → d' !! k = d !! k) →
  (∀ k v, k ∈ keys → d !! k = Some v → ∃ x, view k v = Some x ∧ d' !! k = Some x) →
  dom d' = dom d.
Proof.
  intros Hin Hother Hdone. apply set_eq. intros k. rewrite !elem_of_dom.
  destruct (decide (k ∈ keys)) as [Hk|Hk].
  - pose proof (Hin k Hk) as Hkd. apply elem_of_dom in Hkd as [v Hv].
    destruct (Hdone k v Hk Hv) as (x & _ & Hx). rewrite Hv, Hx. split; eauto.
  - by rewrite (Hother k Hk).
Qed.

(** X9.  With the dictionary [d] of sequence paths at hand, and when
    masking each of its images yields an output, the masking loop
    returns and binds every sequence, the base, DWI and ADC included,
    to its image under the one mask; the key set is unchanged and
    nothing else on the heap changes. *)
Theorem apply_mask_to_all_masks_every_sequence {float}
    (adapter : operation → kwargs → option outputs)
    (context : PipelineContext float) (sequence_paths : nat) (mask : pyval)
    (w : world) (d : dict) :
  heap w !! sequence_paths = Some d →
  (∀ k v, d !! k = Some v → is_Some (masked_of adapter context w v mask)) →
  ∃ w' d',
    apply_mask_to_all adapter context sequence_paths mask w = (Ok tt, w') ∧
    heap w' = <[sequence_paths := d']> (heap w) ∧
    dom d' = dom d ∧
    ∀ k v, d !! k = Some v →
           ∃ masked, masked_of adapter context w v mask = Some masked ∧
                     d' !! k = Some (PyStr masked).
Proof.
  intros Hd Hall.
  destruct (update_loop adapter sequence_paths
              (λ key,
                 v ← dict_getitem sequence_paths key;
                 masked ← apply_mask adapter context v mask;
                 dict_setitem sequence_paths key masked)
              (λ w _ v, PyStr <$> masked_of adapter context w v mask))
    with (keys := elements (dom d)) (w := w) (d := d)
    as (w' & d' & Hloop & Hheap & _ & Hother & Hdone).
  { intros w0 w1 k v Hs. by rewrite (masked_of_answers _ _ _ _ _ _ Hs). }
  { intros w0 d0 k v x Hd0 Hv Hx.
    destruct (masked_of adapter context w0 v mask) as [m|] eqn:Hm; [|done].
    injection Hx as <-.
    destruct (apply_mask_returns _ _ _ _ _ _ Hm) as (w1 & Hrun & Hheap & Hsame).
    exists (set_heap (<[sequence_paths := <[k := PyStr m]> d0]> (heap w1)) w1).
    split; [|split].
    - rewrite (bind_ok _ _ _ _ _ (dict_getitem_at _ _ _ _ _ Hd0 Hv)).
      rewrite (bind_ok _ _ _ _ _ Hrun).
      unfold dict_setitem. by rewrite Hheap, Hd0.
    - simpl. by rewrite Hheap.
    - etrans; [exact Hsame | apply same_answers_set_heap]. }
  { apply NoDup_elements. }
  { done. }
  { intros k Hk. apply elem_of_elements, elem_of_dom in Hk as [v Hv].
    exists v. split; [done|]. destruct (Hall k v Hv) as [m Hm].
    rewrite Hm. by eexists. }
  exists w', d'. split; [|split; [done|split]].
  - unfold apply_mask_to_all. erewrite bind_ok; [exact Hloop|].
    unfold dict_viewkeys, dict_read, mbind, M_bind. by rewrite Hd.
  - eapply (update_loop_dom d d' (elements (dom d))
              (λ _ v, PyStr <$> masked_of adapter context w v mask)).
    + intros k. by rewrite elem_of_elements.
    + exact Hother.
    + exact Hdone.
  - intros k v Hv.
    destruct (Hdone k v) as (x & Hx & Hd'); [|done|].
    { apply elem_of_elements, elem_of_dom. eauto. }
    destruct (masked_of adapter context w v mask) as [m|]; [|done].
    injection Hx as <-. eauto.
Qed.

Lemma corrected_of_answers {float} adapter (self : PipelineContext float) w w1 v mask :
  same_answers adapter w w1 →
  corrected_of adapter self w1 v mask = corrected_of adapter self w v mask.
Proof.
  intros [_ Hv]. unfold corrected_of. rewrite Hv.
  destruct (invoke_view adapter w (_mem self) MRBias _) as [o1|]; [|done]. simpl.
  destruct (o1 !! "out_file"); [|done]. simpl. by rewrite Hv.
Qed.

Lemma standardized_of_answers {float} adapter (self : PipelineContext float)
    w w1 v mask model :
  same_answers adapter w w1 →
  standardized_of adapter self w1 v mask model =
  standardized_of adapter self w v mask model.
Proof.
  intros [_ Hv]. unfold standardized_of. rewrite Hv.
  destruct (invoke_view adapter w (_mem self) MedpyIntensityRangeStandardization _)
    as [o1|]; [|done].
  simpl. destruct (o1 !! "out_file"); [|done]. simpl. by rewrite Hv.
Qed.

Lemma processed_of_answers {float} adapter (self : PipelineContext float)
    w w1 key v mask :
  same_answers adapter w w1 →
  processed_of adapter self w1 key v mask = processed_of adapter self w key v mask.
Proof.
  intros Hs. unfold processed_of.
  rewrite (corrected_of_answers _ _ _ _ _ _ Hs).
  destruct (corrected_of adapter self w v mask); [|done]. simpl.
  rewrite (proj1 Hs). destruct (isfile _ _); [|done].
  by apply standardized_of_answers.
Qed.

Lemma outputs_attr_at o name s w :
  o !! name = Some s → outputs_attr o name w = (Ok (PyStr s), w).
Proof. intros H. unfold outputs_attr. by rewrite H. Qed.

Lemma correct_biasfield_returns {float} adapter (self : PipelineContext float)
    w v mask corrected :
  corrected_of adapter self w v mask = Some corrected →
  ∃ w1, correct_biasfield adapter self v mask w = (Ok (PyStr corrected), w1) ∧
        heap w1 = heap w ∧ same_answers adapter w w1.
Proof.
  unfold corrected_of. intros H.
  destruct (invoke_view adapter w (_mem self) MRBias _) as [o1|] eqn:Hv1; [|done].
  simpl in H. destruct (o1 !! "out_file") as [bfc|] eqn:Hbfc; [|done]. simpl in H.
  destruct (invoke_view adapter w (_mem self) NiftiModifyMetadata _)
    as [o2|] eqn:Hv2; [|done].
  simpl in H.
  destruct (Memory_cache_answers _ _ _ _ _ _ Hv1) as (w1 & Hrun1 & Hheap1 & Hsame1).
  rewrite <- (proj2 Hsame1) in Hv2.
  destruct (Memory_cache_answers _ _ _ _ _ _ Hv2) as (w2 & Hrun2 & Hheap2 & Hsame2).
  exists w2. split; [|split; [congruence | by etrans]].
  unfold correct_biasfield. rewrite (bind_ok _ _ _ _ _ Hrun1).
  rewrite (bind_ok _ _ _ _ _ (outputs_attr_at _ _ _ _ Hbfc)).
  rewrite (bind_ok _ _ _ _ _ Hrun2).
  by apply outputs_attr_at.
Qed.

Lemma standardize_intensityrange_returns {float} adapter
    (self : PipelineContext float) w v mask model standardized :
  standardized_of adapter self w v mask model = Some standardized →
  ∃ w1, standardize_intensityrange adapter self v mask model w
          = (Ok (PyStr standardized), w1) ∧
        heap w1 = heap w ∧ same_answers adapter w w1.
Proof.
  unfold standardized_of. intros H.
  destruct (invoke_view adapter w (_mem self) MedpyIntensityRangeStandardization _)
    as [o1|] eqn:Hv1; [|done].
  simpl in H. destruct (o1 !! "out_file") as [irs|] eqn:Hirs; [|done]. simpl in H.
  destruct (invoke_view adapter w (_mem self) CondenseOutliers _)
    as [o2|] eqn:Hv2; [|done].
  simpl in H.
  destruct (Memory_cache_answers _ _ _ _ _ _ Hv1) as (w1 & Hrun1 & Hheap1 & Hsame1).
  rewrite <- (proj2 Hsame1) in Hv2.
  destruct (Memory_cache_answers _ _ _ _ _ _ Hv2) as (w2 & Hrun2 & Hheap2 & Hsame2).
  exists w2. split; [|split; [congruence | by etrans]].
  unfold standardize_intensityrange. rewrite (bind_ok _ _ _ _ _ Hrun1).
  rewrite (bind_ok _ _ _ _ _ (outputs_attr_at _ _ _ _ Hirs)).
  rewrite (bind_ok _ _ _ _ _ Hrun2).
  by apply outputs_attr_at.
Qed.

Lemma get_intensity_model_returns {float} (self : PipelineContext float) key w :
  isfile (fs w) (intensity_model_path self key) = true →
  get_intensity_model self key w = (Ok (intensity_model_path self key), w).
Proof.
  intros H. unfold get_intensity_model.
  erewrite bind_ok; [|reflexivity]. by rewrite H.
Qed.

(** X10.  With the dictionary [d] of sequence paths at hand, and when
    for each sequence the bias-field correction yields an output, the
    intensity model file of that sequence exists and the standardisation
    of the corrected image with that model yields an output, the loop
    returns and binds every sequence to its corrected and standardised
    image: each sequence is standardised with its own model file
    [intensity_model_<key>.pkl].  The key set is unchanged and nothing
    else on the heap changes. *)
Theorem correct_and_standardize_all_uses_own_model {float}
    (adapter : operation → kwargs → option outputs)
    (context : PipelineContext float) (sequence_paths : nat) (mask : pyval)
    (w : world) (d : dict) :
  heap w !! sequence_paths = Some d →
  (∀ k v, d !! k = Some v → is_Some (processed_of adapter context w k v mask)) →
  ∃ w' d',
    correct_and_standardize_all adapter context sequence_paths mask w = (Ok tt, w') ∧
    heap w' = <[sequence_paths := d']> (heap w) ∧
    dom d' = dom d ∧
    ∀ k v, d !! k = Some v →
      ∃ corrected standardized,
        corrected_of adapter context w v mask = Some corrected ∧
        isfile (fs w) (os_path_join (_intensity_model_dir context)
                         ("intensity_model_" +:+ k +:+ ".pkl")) = true ∧
        standardized_of adapter context w (PyStr corrected) mask
          (PyStr (os_path_join (_intensity_model_dir context)
                    ("intensity_model_" +:+ k +:+ ".pkl"))) = Some standardized ∧
        d' !! k = Some (PyStr standardized).
Proof.
  intros Hd Hall.
  destruct (update_loop adapter sequence_paths
              (λ key,
                 v ← dict_getitem sequence_paths key;
                 corrected ← correct_biasfield adapter context v mask;
                 dict_setitem sequence_paths key corrected;;
                 v ← dict_getitem sequence_paths key;
                 model ← get_intensity_model context key;
                 standardized ←
                   standardize_intensityrange adapter context v mask (PyStr model);
                 dict_setitem sequence_paths key standardized)
              (λ w k v, PyStr <$> processed_of adapter context w k v mask))
    with (keys := elements (dom d)) (w := w) (d := d)
    as (w' & d' & Hloop & Hheap & _ & Hother & Hdone).
  { intros w0 w1 k v Hs. by rewrite (processed_of_answers _ _ _ _ _ _ _ Hs). }
  { intros w0 d0 k v x Hd0 Hv Hx.
    unfold processed_of in Hx.
    destruct (corrected_of adapter context w0 v mask) as [c|] eqn:Hc; [|done].
    simpl in Hx.
    destruct (isfile (fs w0) (intensity_model_path context k)) eqn:Hf; [|done].
    destruct (standardized_of adapter context w0 (PyStr c) mask _)
      as [s|] eqn:Hs; [|done].
    injection Hx as <-.
    destruct (correct_biasfield_returns _ _ _ _ _ _ Hc)
      as (w1 & Hrun1 & Hheap1 & Hsame1).
    set (d1 := <[k := PyStr c]> d0).
    set (w2 := set_heap (<[sequence_paths := d1]> (heap w1)) w1).
    assert (Hsame2 : same_answers adapter w0 w2)
      by (etrans; [exact Hsame1 | apply same_answers_set_heap]).
    assert (Hd2 : heap w2 !! sequence_paths = Some d1) by apply lookup_insert_eq.
    rewrite <- (standardized_of_answers _ _ _ _ _ _ _ Hsame2) in Hs.
    destruct (standardize_intensityrange_returns _ _ _ _ _ _ _ Hs)
      as (w3 & Hrun3 & Hheap3 & Hsame3).
    exists (set_heap (<[sequence_paths := <[k := PyStr s]> d1]> (heap w3)) w3).
    split; [|split].
    - rewrite (bind_ok _ _ _ _ _ (dict_getitem_at _ _ _ _ _ Hd0 Hv)).
      rewrite (bind_ok _ _ _ _ _ Hrun1).
      erewrite (bind_ok _ _ w1 tt w2);
        [|unfold dict_setitem, w2, d1; by rewrite Hheap1, Hd0].
      erewrite (bind_ok _ _ w2 (PyStr c) w2);
        [|apply (dict_getitem_at _ _ _ d1); [done | apply lookup_insert_eq]].
      rewrite (bind_ok _ _ _ _ _
                 (get_intensity_model_returns context k w2
                    ltac:(by rewrite (proj1 Hsame2)))).
      rewrite (bind_ok _ _ _ _ _ Hrun3).
      unfold dict_setitem. by rewrite Hheap3, Hd2.
    - simpl. rewrite Hheap3. simpl. rewrite Hheap1, insert_insert_eq.
      unfold d1. by rewrite insert_insert_eq.
    - etrans; [exact Hsame2|]. etrans; [exact Hsame3|]. apply same_answers_set_heap. }
  { apply NoDup_elements. }
  { done. }
  { intros k Hk. apply elem_of_elements, elem_of_dom in Hk as [v Hv].
    exists v. split; [done|]. destruct (Hall k v Hv) as [m Hm].
    rewrite Hm. by eexists. }
  exists w', d'. split; [|split; [done|split]].
  - unfold correct_and_standardize_all. erewrite bind_ok; [exact Hloop|].
    unfold dict_viewkeys, dict_read, mbind, M_bind. by rewrite Hd.
  - eapply (update_loop_dom d d' (elements (dom d))
              (λ k v, PyStr <$> processed_of adapter context w k v mask)).
    + intros k. by rewrite elem_of_elements.
    + exact Hother.
    + exact Hdone.
  - intros k v Hv.
    destruct (Hdone k v) as (x & Hx & Hd'); [|done|].
    { apply elem_of_elements, elem_of_dom. eauto. }
    unfold processed_of, intensity_model_path in Hx.
    destruct (corrected_of adapter context w v mask) as [c|]; [|done]. simpl in Hx.
    destruct (isfile (fs w) _) eqn:Hf; [|done].
    destruct (standardized_of adapter context w (PyStr c) mask _)
      as [s|] eqn:Hs; [|done].
    injection Hx as <-. exists c, s. done.
Qed.

(** ** A run without a registration base *)


(** ** A second run *)

Lemma run_stages_stages {float}
    (py_float : string → option float) (py_str : float → string)
    (abspath : string → string) (adapter : operation → kwargs → option outputs)
    (sequence_paths : nat) (config : gmap (string * string) string) :
  run_stages py_float py_str abspath adapter sequence_paths config =
  (l ← copy_copy sequence_paths;
   context ← PipelineContext_init py_float abspath config;
   stages py_str adapter context l).
Proof. reflexivity. Qed.

Global Instance cache_extends_preorder : PreOrder cache_extends.
Proof.
  split.
  - by intros w k o.
  - intros w1 w2 w3 H12 H23 k o Hk. by apply H23, H12.
Qed.

Lemma cache_extends_same w w' w2 :
  cache_store w2 = cache_store w' → cache_extends w w' → cache_extends w w2.
Proof. intros Hs H k o Hk. rewrite Hs. by apply H. Qed.

Lemma reruns_ret {A} (a : A) : reruns (λ _, mret a).
Proof.
  intros l1 w a' w1 [= <- <-]. split; [reflexivity|].
  intros l2 w2 _ Hh. simpl. auto.
Qed.

Lemma reruns_raise {A} (e : exn) : reruns (λ _, raise (A:=A) e).
Proof. by intros l1 w a w1. Qed.

Lemma reruns_lift_result {A} (r : result A) : reruns (λ _, lift_result r).
Proof.
  intros l1 w a w1 [= -> <-]. split; [reflexivity|].
  intros l2 w2 _ Hh. simpl. auto.
Qed.

Lemma reruns_bind {A B} (G : nat → M A) (H : A → nat → M B) :
  reruns G → (∀ a, reruns (H a)) → reruns (λ l, G l ≫= (λ a, H a l)).
Proof.
  intros HG HH l1 w b w1 Hrun.
  apply bind_inv in Hrun as [(a & wm & Hg & Hh)|(e & _ & ?)]; [|done].
  destruct (HG l1 w a wm Hg) as [Hc1 HG2].
  destruct (HH a l1 wm b w1 Hh) as [Hc2 HH2].
  split; [by etrans|]. intros l2 w2 Hext Hheap.
  destruct (HG2 l2 w2) as (Hex & Hcs & Hres); [by etrans|done|].
  unfold mbind, M_bind.
  destruct (G l2 w2) as [[a'|e] w2m] eqn:HG2'; simpl in *.
  - destruct Hres as [[Ha Hh2]|[e ?]]; [|done]. injection Ha as ->.
    destruct (HH2 l2 w2m) as (Hex' & Hcs' & Hres').
    { eapply cache_extends_same; [exact Hcs|]. apply cache_extends_same with w2; [done|].
      exact Hext. }
    { exact Hh2. }
    split; [congruence|]. split; [congruence|]. exact Hres'.
  - split; [done|]. split; [done|]. right. eauto.
Qed.

Lemma reruns_for_each {A} (keys : list A) (body : nat → A → M unit) :
  (∀ x, reruns (λ l, body l x)) → reruns (λ l, for_each keys (body l)).
Proof.
  intros Hb. induction keys as [|x xs IH]; simpl.
  - apply reruns_ret.
  - apply (reruns_bind (λ l, body l x) (λ _ l, for_each xs (body l))); auto.
Qed.

Lemma reruns_dict_read : reruns dict_read.
Proof.
  intros l1 w d w1 H. unfold dict_read in H.
  destruct (heap w !! l1) as [d'|] eqn:Hd; [|done]. injection H as <- <-.
  split; [reflexivity|]. intros l2 w2 _ Hh. unfold dict_read.
  rewrite Hh, Hd. simpl. split; [done|]. split; [done|]. left.
  split; [done|]. congruence.
Qed.

Lemma reruns_dict_getitem k : reruns (λ l, dict_getitem l k).
Proof.
  apply (reruns_bind dict_read
           (λ d _, match d !! k with Some v => mret v | None => raise (KeyError k) end)).
  - apply reruns_dict_read.
  - intros d. destruct (d !! k); [apply reruns_ret | apply reruns_raise].
Qed.

Lemma reruns_dict_contains k : reruns (λ l, dict_contains l k).
Proof.
  apply (reruns_bind dict_read (λ d _, mret (bool_decide (k ∈ dom d)))).
  - apply reruns_dict_read.
  - intros d. apply reruns_ret.
Qed.

Lemma reruns_dict_viewkeys : reruns dict_viewkeys.
Proof.
  apply (reruns_bind dict_read (λ d _, mret (dom d))).
  - apply reruns_dict_read.
  - intros d. apply reruns_ret.
Qed.

Lemma reruns_dict_setitem k v : reruns (λ l, dict_setitem l k v).
Proof.
  intros l1 w [] w1 H. unfold dict_setitem in H.
  destruct (heap w !! l1) as [d|] eqn:Hd; [|done]. injection H as <-.
  split; [by intros key o|]. intros l2 w2 _ Hh. cbv beta. unfold dict_setitem.
  rewrite Hh. simpl. split; [done|]. split; [done|]. left.
  split; [done|]. by rewrite !lookup_insert_eq.
Qed.

Lemma reruns_Memory_cache adapter mem op ps :
  reruns (λ _, Memory_cache adapter mem op ps).
Proof.
  intros l1 w o w1 H.
  pose proof (stage_effect_Memory_cache adapter mem op ps w) as [Hc Hh1].
  rewrite H in Hc, Hh1. simpl in Hc, Hh1.
  split; [exact Hc|]. intros l2 w2 Hext Hh.
  assert (Hhit : cache_lookup (base_dir mem, op, ps) (cache_store w1) = Some o).
  { revert H. unfold Memory_cache.
    destruct (cache_lookup _ (cache_store w)) as [o'|] eqn:Hl.
    - by intros [= <- <-].
    - destruct (adapter op ps); [|done]. intros [= <- <-]. apply cache_lookup_head. }
  rewrite (Memory_cache_hit _ _ _ _ _ _ (Hext _ _ Hhit)). simpl.
  split; [done|]. split; [done|]. left. split; [done|]. congruence.
Qed.

Lemma reruns_outputs_attr o name : reruns (λ _, outputs_attr o name).
Proof.
  unfold outputs_attr. destruct (o !! name); [apply reruns_ret | apply reruns_raise].
Qed.

(** A test of the file system may come out differently the second
    time: the computation then raises where it had returned. *)
Lemma reruns_get_intensity_model {float} (self : PipelineContext float) key :
  reruns (λ _, get_intensity_model self key).
Proof.
  intros l1 w path w1 H. unfold get_intensity_model in *.
  unfold mbind, M_bind, os_path_isfile in *.
  destruct (isfile (fs w) _); [|done]. injection H as <- <-.
  split; [reflexivity|]. intros l2 w2 _ Hh.
  destruct (isfile (fs w2) _); simpl; eauto 6.
Qed.

Ltac reruns_step :=
  lazymatch goal with
  | |- reruns (λ l, mbind (@?f l) (@?g l)) =>
      apply (reruns_bind g (λ a l, f l a)); [|intros ?]
  | |- reruns (λ _, mret _) => apply reruns_ret
  | |- reruns (λ _, raise _) => apply reruns_raise
  | |- reruns (λ _, lift_result _) => apply reruns_lift_result
  | |- reruns (λ l, for_each ?keys (@?body l)) =>
      apply (reruns_for_each keys body); intros ?
  | |- reruns (λ l, dict_read l) => apply reruns_dict_read
  | |- reruns dict_read => apply reruns_dict_read
  | |- reruns (λ l, dict_getitem l _) => apply reruns_dict_getitem
  | |- reruns (λ l, dict_contains l _) => apply reruns_dict_contains
  | |- reruns (λ l, dict_viewkeys l) => apply reruns_dict_viewkeys
  | |- reruns dict_viewkeys => apply reruns_dict_viewkeys
  | |- reruns (λ l, dict_setitem l _ _) => apply reruns_dict_setitem
  | |- reruns (λ _, Memory_cache _ _ _ _) => apply reruns_Memory_cache
  | |- reruns (λ _, outputs_attr _ _) => apply reruns_outputs_attr
  | |- reruns (λ _, get_intensity_model _ _) => apply reruns_get_intensity_model
  | |- reruns (λ l, match ?x with _ => _ end) => destruct x
  | |- reruns (λ l, let '(_, _) := ?x in _) => destruct x
  end.

Lemma stages_reruns {float} (py_str : float → string)
    (adapter : operation → kwargs → option outputs)
    (context : PipelineContext float) :
  reruns (stages py_str adapter context).
Proof.
  unfold stages, register_to_base, dwi_adc_special_case, extract_features,
    resample, register, transform, skullstrip, apply_mask, correct_biasfield,
    standardize_intensityrange, apply_rdf.
  repeat (reruns_step; cbv beta).
Qed.

Global Instance tools_idle_preorder : PreOrder tools_idle.
Proof.
  split.
  - by intros w.
  - intros w1 w2 w3 [E12 C12] [E23 C23]. split; congruence.
Qed.

Lemma tools_idle_os_remove p : respects tools_idle (os_remove p).
Proof. intros w. unfold os_remove. by destruct (fs w !! p) as [[]|]. Qed.

Lemma tools_idle_os_symlink src dst : respects tools_idle (os_symlink src dst).
Proof.
  intros w. unfold os_symlink. destruct src; try done. by destruct (fs w !! dst).
Qed.

#[local] Hint Resolve tools_idle_os_remove tools_idle_os_symlink : respects.

Lemma publish_tools_idle {float} (context : PipelineContext float) c p :
  respects tools_idle (publish context c p).
Proof. respects_auto. Qed.

Lemma constructed_tools_idle w w' : constructed w w' → tools_idle w w'.
Proof. by intros (_ & _ & _ & Hs & He). Qed.

(** The context depends on the configuration alone. *)
Lemma init_context_determined {float} (py_float : string → option float) abspath
    config w1 w1' w2 w2' (c1 c2 : PipelineContext float) :
  PipelineContext_init py_float abspath config w1 = (Ok c1, w1') →
  PipelineContext_init py_float abspath config w2 = (Ok c2, w2') →
  c1 = c2.
Proof.
  intros H1 H2.
  apply init_returns_inv in H1
    as (cache & out & spacing & elastix & rb & sb & model & feature & forest
        & x & y & z & A1 & A2 & A3 & A4 & A5 & A6 & A7 & A8 & A9 & A10 & -> & _).
  apply init_returns_inv in H2
    as (cache' & out' & spacing' & elastix' & rb' & sb' & model' & feature' & forest'
        & x' & y' & z' & B1 & B2 & B3 & B4 & B5 & B6 & B7 & B8 & B9 & B10 & -> & _).
  simplify_eq. done.
Qed.

Lemma stages_heap_kept {float} (py_str : float → string)
    (adapter : operation → kwargs → option outputs)
    (context : PipelineContext float) l l' :
  l' ≠ l → respects (heap_kept l) (stages py_str adapter context l').
Proof. intros Hne. unfold stages. respects_auto. Qed.

(** X12.  After a run of [execute_pipeline] that returned, a second run
    on the same sequence paths and configuration executes no tool and
    adds nothing to the cache, whether it returns or raises: every stage
    is answered from the cache.  When the stages of the second run
    return, they hand to the publication the context and the two result
    images of the first run. *)
Theorem second_run_executes_no_tool {float}
    (py_float : string → option float) (py_str : float → string)
    (abspath : string → string) (adapter : operation → kwargs → option outputs)
    (sequence_paths : nat) (config : gmap (string * string) string)
    (w w' : world) :
  execute_pipeline py_float py_str abspath adapter sequence_paths config w
    = (Ok tt, w') →
  executed (execute_pipeline py_float py_str abspath adapter sequence_paths config w').2
    = executed w' ∧
  cache_store (execute_pipeline py_float py_str abspath adapter sequence_paths config w').2
    = cache_store w' ∧
  ∀ r w2, run_stages py_float py_str abspath adapter sequence_paths config w'
            = (Ok r, w2) →
          ∃ w1, run_stages py_float py_str abspath adapter sequence_paths config w
                  = (Ok r, w1).
Proof.
  intros Hrun. unfold execute_pipeline in Hrun.
  apply bind_inv in Hrun as [([[context c] p] & w1 & Hst & Hpub)|(? & _ & ?)]; [|done].
  pose proof Hst as Hst0. rewrite run_stages_stages in Hst.
  apply bind_inv in Hst as [(l1 & w0 & Hcopy & Hst)|(? & _ & ?)]; [|done].
  apply bind_inv in Hst as [(context0 & w0' & Hinit & Hst)|(? & _ & ?)]; [|done].
  unfold copy_copy in Hcopy.
  destruct (heap w !! sequence_paths) as [d|] eqn:Hd; [|done].
  injection Hcopy as Hl1 Hw0.
  assert (Hne : l1 ≠ sequence_paths).
  { rewrite <- Hl1. intros Heq. apply (is_fresh (dom (heap w))). rewrite Heq.
    apply elem_of_dom. eauto. }
  rewrite Hl1 in Hw0. subst w0.
  pose proof (init_constructed py_float abspath config
                (set_heap (<[l1 := d]> (heap w)) w)) as Hc0.
  rewrite Hinit in Hc0. simpl in Hc0. destruct Hc0 as (_ & _ & Hh0 & _ & _).
  assert (Hd0 : heap w0' !! l1 = Some d).
  { rewrite Hh0. simpl. apply lookup_insert_eq. }
  assert (Hd' : heap w' !! sequence_paths = Some d).
  { pose proof (publish_heap_kept sequence_paths context c p w1) as Hk1.
    rewrite Hpub in Hk1. unfold heap_kept in Hk1. simpl in Hk1. rewrite Hk1.
    pose proof (stages_heap_kept py_str adapter context0 sequence_paths l1 Hne w0')
      as Hk2.
    rewrite Hst in Hk2. unfold heap_kept in Hk2. simpl in Hk2. rewrite Hk2.
    rewrite Hh0. simpl. by rewrite lookup_insert_ne. }
  pose proof (publish_tools_idle context c p w1) as [_ Hcp].
  rewrite Hpub in Hcp. simpl in Hcp.
  destruct (stages_reruns py_str adapter context0 l1 w0' _ w1 Hst) as [_ Hre].
  destruct (copy_copy_fresh _ _ _ Hd') as (l2 & _ & Hcopy2).
  set (w2 := set_heap (<[l2 := d]> (heap w')) w') in *.
  assert (Hidle : tools_idle w'
            (run_stages py_float py_str abspath adapter sequence_paths config w').2
          ∧ ∀ r wx, run_stages py_float py_str abspath adapter sequence_paths config w'
                      = (Ok r, wx) → r = (context, c, p)).
  { rewrite run_stages_stages, (bind_ok _ _ _ _ _ Hcopy2).
    pose proof (init_constructed py_float abspath config w2) as Hc2.
    destruct (PipelineContext_init py_float abspath config w2)
      as [[context2|e] w2'] eqn:Hinit2; simpl in Hc2.
    - rewrite (bind_ok _ _ _ _ _ Hinit2).
      assert (context2 = context0) as -> by (eapply init_context_determined; eauto).
      destruct Hc2 as (_ & _ & Hh2 & Hs2 & He2).
      destruct (Hre l2 w2') as (Hex & Hcs & Hres).
      { intros k o Hk. rewrite Hs2. unfold w2. simpl. by rewrite Hcp. }
      { rewrite Hh2, Hd0. unfold w2. simpl. apply lookup_insert_eq. }
      split.
      + split; [by rewrite Hex, He2 | by rewrite Hcs, Hs2].
      + intros r wx Hr. rewrite Hr in Hres. simpl in Hres.
        destruct Hres as [[Hok _]|[e ?]]; [|done]. by injection Hok.
    - rewrite (bind_raise _ _ _ _ _ Hinit2). simpl.
      destruct Hc2 as (_ & _ & _ & Hs2 & He2). split; [by split|]. by intros r wx. }
  destruct Hidle as [[Hex Hcs] Hsame].
  assert (Hall : tools_idle w'
            (execute_pipeline py_float py_str abspath adapter sequence_paths config w').2).
  { unfold execute_pipeline, mbind, M_bind.
    destruct (run_stages py_float py_str abspath adapter sequence_paths config w')
      as [[[[cx cc] cp]|e] wx]; simpl in *; [|by split].
    pose proof (publish_tools_idle cx cc cp wx) as [He Hc].
    split; congruence. }
  destruct Hall as [HA HB]. split; [exact HA|]. split; [exact HB|].
  intros r wx Hr. exists w1. by rewrite (Hsame r wx Hr).
Qed.

(** ** A run that returns *)



Lemma succeeds_bind {A B} (I : world → Prop) (m : M A) (f : A → M B)
    (Φ : A → Prop) (Ψ : B → Prop) :
  succeeds I m Φ → (∀ a, Φ a → succeeds I (f a) Ψ) → succeeds I (m ≫= f) Ψ.
Proof.
  intros Hm Hf w Hw. destruct (Hm w Hw) as (a & w1 & Hrun & Hw1 & Ha).
  destruct (Hf a Ha w1 Hw1) as (b & w2 & Hrun2 & Hw2 & Hb).
  exists b, w2. by rewrite (bind_ok _ _ _ _ _ Hrun).
Qed.

Lemma succeeds_weaken {A} (I : world → Prop) (m : M A) (Φ Ψ : A → Prop) :
  succeeds I m Φ → (∀ a, Φ a → Ψ a) → succeeds I m Ψ.
Proof.
  intros Hm Himp w Hw. destruct (Hm w Hw) as (a & w1 & Hrun & Hw1 & Ha).
  exists a, w1. auto.
Qed.


Lemma succeeds_outputs_attr (I : world → Prop) (o : outputs) name :
  is_Some (o !! name) → succeeds I (outputs_attr o name) is_str.
Proof.
  intros [p Hp] w Hw. unfold outputs_attr. rewrite Hp.
  exists (PyStr p), w. split; [done|]. split; [done|]. by exists p.
Qed.

Section Ready.
Context (adapter : operation → kwargs → option outputs).
Context (l : nat) (D : gset string) (t : gmap string node).






Lemma ready_Memory_cache mem op ps :
  succeeds (ready adapter l D t) (Memory_cache adapter mem op ps)
    (λ o, ∀ name, name ∈ read_fields op → is_Some (o !! name)).
Proof.
  intros w (Hkeys & Hfs & Hans).
  destruct (Hans mem op ps) as (o & Hv & Hfields).
  destruct (Memory_cache_answers adapter mem op ps w o Hv)
    as (w1 & Hrun & Hheap & Hfs1 & Hviews).
  exists o, w1. split; [done|]. split; [|done]. split; [|split].
  - destruct Hkeys as (d & Hd & HD). exists d. by rewrite Hheap.
  - by rewrite Hfs1.
  - intros mem' op' ps'. rewrite Hviews. apply Hans.
Qed.

(** A memoised call whose named output is read. *)
Lemma ready_call mem op ps name :
  name ∈ read_fields op →
  succeeds (ready adapter l D t)
    (result ← Memory_cache adapter mem op ps; outputs_attr result name) is_str.
Proof.
  intros Hn. eapply succeeds_bind; [apply ready_Memory_cache|].
  intros o Ho. apply succeeds_outputs_attr. by apply Ho.
Qed.

Context {float : Type} (py_str : float → string) (self : PipelineContext float).


Lemma ready_transform a b :
  succeeds (ready adapter l D t) (transform adapter self a b) is_str.
Proof. apply ready_call. repeat constructor. Qed.











End Ready.



(** *** What construction touches *)








(** *** Publication at locations that can be filled *)





(** ** The spacing handed to the resampling tool *)

Lemma mapM_round_trip {float} (py_float : string → option float)
    (py_str : float → string) (fields : list string) (xs : list float) :
  (∀ a x, a ∈ fields → py_float a = Some x → py_str x = a) →
  mapM py_float fields = Some xs → map py_str xs = fields.
Proof.
  intros Hrt Hm. apply mapM_Some in Hm.
  induction Hm as [|a x fields xs Hax Hm IH]; [done|]. simpl. f_equal.
  - apply Hrt; [apply list_elem_of_here | done].
  - apply IH. intros b y Hb. apply Hrt. by apply list_elem_of_further.
Qed.

(** X14.  The spacing that [resample] hands to the resampling tool is
    the three parsed numbers printed by [str] and joined by commas.
    When printing undoes parsing on the three configured fields, this
    is the configured pixel spacing itself, character for character. *)
Theorem resample_passes_configured_spacing {float}
    (py_float : string → option float) (py_str : float → string)
    (abspath : string → string) (adapter : operation → kwargs → option outputs)
    (config : gmap (string * string) string) (w0 w0' : world)
    (context : PipelineContext float) (spacing : string) (in_file : pyval)
    (w : world) :
  PipelineContext_init py_float abspath config w0 = (Ok context, w0') →
  config !! ("resampling", "pixel_spacing") = Some spacing →
  (∀ a x, a ∈ Str.split_comma spacing → py_float a = Some x → py_str x = a) →
  resample py_str adapter context in_file w =
  (result ← Memory_cache adapter (_mem context) MedpyResample
              (keywords [("in_file", ArgVal in_file);
                         ("spacing", ArgVal (PyStr spacing))]);
   outputs_attr result "out_file") w.
Proof.
  intros Hinit Hs Hrt.
  apply init_returns_inv in Hinit
    as (cache & out & spacing' & elastix & rb & sb & model & feature & forest
        & x & y & z & _ & _ & Hs' & _ & _ & _ & _ & _ & _ & Hxyz & -> & _).
  rewrite Hs in Hs'. injection Hs' as <-.
  unfold resample. simpl _pixel_spacing.
  by rewrite (mapM_round_trip py_float py_str _ _ Hrt Hxyz), join_split_comma.
Qed.

(** ** The theorems at the demonstration inputs *)

Lemma demo_init_returns :
  PipelineContext_init Demo.py_float Demo.abspath Demo.config (Demo.world_with ∅)
  = (Ok Demo.context, demo_constructed).
Proof.
  assert (H : (PipelineContext_init Demo.py_float Demo.abspath Demo.config
                 (Demo.world_with ∅)).1 = Ok Demo.context)
    by (vm_compute; reflexivity).
  unfold demo_constructed.
  destruct (PipelineContext_init _ _ _ _) as [r w2]. simpl in *. by subst.
Qed.

Lemma constructed_context_is_valid_witness :
  isdir (fs demo_constructed) "/cache" = true ∧
  isdir (fs demo_constructed) "/out" = true ∧
  isdir (fs demo_constructed) "/models" = true ∧
  isdir (fs demo_constructed) "/forests" = true ∧
  isfile (fs demo_constructed) "/etc/elastix.txt" = true ∧
  isfile (fs demo_constructed) "/etc/features.py" = true ∧
  length (_pixel_spacing Demo.context) = 3 ∧
  heap demo_constructed = heap (Demo.world_with ∅) ∧
  cache_store demo_constructed = cache_store (Demo.world_with ∅) ∧
  executed demo_constructed = executed (Demo.world_with ∅).
Proof.
  exact (constructed_context_is_valid Demo.py_float Demo.abspath Demo.config
           (Demo.world_with ∅) demo_constructed Demo.context demo_init_returns).
Defined.

Lemma constructed_candidates_are_trimmed_witness :
  ∃ rb sb,
    Demo.config !! ("resampling", "registration_base") = Some rb ∧
    Demo.config !! ("skullstripping", "base_image") = Some sb ∧
    length (_registration_base_list Demo.context) = S (count_char "," rb) ∧
    length (_skullstripping_base_list Demo.context) = S (count_char "," sb) ∧
    ∀ c, c ∈ _registration_base_list Demo.context
         ∨ c ∈ _skullstripping_base_list Demo.context →
         trimmed c ∧ Str.strip c = c ∧ count_char "," c = 0.
Proof.
  exact (constructed_candidates_are_trimmed Demo.py_float Demo.abspath Demo.config
           (Demo.world_with ∅) demo_constructed Demo.context demo_init_returns).
Defined.



Lemma dwi_adc_step_warps_adc_with_dwi_transform_witness :
  ∃ w',
    dwi_adc_special_case Demo.adapter Demo.context 0 (PyStr "resampled:a.img")
      (Demo.world_with dwi_and_adc) = (Ok tt, w') ∧
    heap w' = <[0 := <[ADC := PyStr "applied:transform:e.img:d.img"]>
                       (<[DWI := PyStr "warped:e.img"]> dwi_and_adc)]>
                (heap (Demo.world_with dwi_and_adc)).
Proof.
  apply (dwi_adc_step_warps_adc_with_dwi_transform Demo.adapter Demo.context 0
           (PyStr "resampled:a.img") (PyStr "e.img") (PyStr "d.img")
           (Demo.world_with dwi_and_adc) dwi_and_adc
           "warped:e.img" "transform:e.img" "applied:transform:e.img:d.img"
           {[ "warped_file" := "applied:transform:e.img:d.img" ]}).
  - apply demo_world_lookup.
  - vm_compute; reflexivity.
  - vm_compute; reflexivity.
  - vm_compute; reflexivity.
  - vm_compute; reflexivity.
  - apply lookup_singleton_eq.
Defined.

Lemma apply_mask_to_all_masks_every_sequence_witness :
  ∃ w' d',
    apply_mask_to_all Demo.adapter Demo.context 0 (PyStr "mask:b.img")
      (Demo.world_with Demo.three_sequences) = (Ok tt, w') ∧
    heap w' = <[0 := d']> (heap (Demo.world_with Demo.three_sequences)) ∧
    dom d' = dom Demo.three_sequences ∧
    ∀ k v, Demo.three_sequences !! k = Some v →
           ∃ masked,
             masked_of Demo.adapter Demo.context
               (Demo.world_with Demo.three_sequences) v (PyStr "mask:b.img")
             = Some masked ∧
             d' !! k = Some (PyStr masked).
Proof.
  apply (apply_mask_to_all_masks_every_sequence Demo.adapter Demo.context 0
           (PyStr "mask:b.img") (Demo.world_with Demo.three_sequences)
           Demo.three_sequences).
  - apply demo_world_lookup.
  - intros k v _. eexists. unfold masked_of, invoke_view. simpl.
    apply lookup_singleton_eq.
Defined.

Lemma demo_key_cases k v :
  Demo.three_sequences !! k = Some v →
  k = "t1_sag_tfe" ∨ k = "flair_tra" ∨ k = "dw_tra_b1000_dmean".
Proof.
  intros Hk. apply elem_of_dom_2 in Hk. unfold Demo.three_sequences in Hk.
  rewrite dom_list_to_map_L in Hk. simpl in Hk.
  rewrite !elem_of_union, !elem_of_singleton in Hk.
  destruct Hk as [?|[?|[?|Hk]]]; auto. by apply elem_of_empty in Hk.
Qed.

Lemma correct_and_standardize_all_uses_own_model_witness :
  ∃ w' d',
    correct_and_standardize_all Demo.adapter Demo.context 0 (PyStr "mask:b.img")
      (Demo.world_with Demo.three_sequences) = (Ok tt, w') ∧
    heap w' = <[0 := d']> (heap (Demo.world_with Demo.three_sequences)) ∧
    dom d' = dom Demo.three_sequences ∧
    ∀ k v, Demo.three_sequences !! k = Some v →
      ∃ corrected standardized,
        corrected_of Demo.adapter Demo.context
          (Demo.world_with Demo.three_sequences) v (PyStr "mask:b.img")
        = Some corrected ∧
        isfile (fs (Demo.world_with Demo.three_sequences))
          (os_path_join (_intensity_model_dir Demo.context)
             ("intensity_model_" +:+ k +:+ ".pkl")) = true ∧
        standardized_of Demo.adapter Demo.context
          (Demo.world_with Demo.three_sequences) (PyStr corrected)
          (PyStr "mask:b.img")
          (PyStr (os_path_join (_intensity_model_dir Demo.context)
                    ("intensity_model_" +:+ k +:+ ".pkl"))) = Some standardized ∧
        d' !! k = Some (PyStr standardized).
Proof.
  apply (correct_and_standardize_all_uses_own_model Demo.adapter Demo.context 0
           (PyStr "mask:b.img") (Demo.world_with Demo.three_sequences)
           Demo.three_sequences).
  - apply demo_world_lookup.
  - intros k v Hk.
    destruct (processed_of Demo.adapter Demo.context
                (Demo.world_with Demo.three_sequences) k v (PyStr "mask:b.img"))
      eqn:E; [by eexists|].
    destruct (demo_key_cases k v Hk) as [->|[->| ->]];
      vm_compute in E; discriminate.
Defined.




Lemma second_run_executes_no_tool_witness :
  executed (execute_pipeline Demo.py_float Demo.py_str Demo.abspath Demo.adapter 0
              Demo.config (Demo.run Demo.three_sequences).2).2
    = executed (Demo.run Demo.three_sequences).2 ∧
  cache_store (execute_pipeline Demo.py_float Demo.py_str Demo.abspath Demo.adapter 0
                 Demo.config (Demo.run Demo.three_sequences).2).2
    = cache_store (Demo.run Demo.three_sequences).2 ∧
  ∀ r w2, run_stages Demo.py_float Demo.py_str Demo.abspath Demo.adapter 0 Demo.config
            (Demo.run Demo.three_sequences).2 = (Ok r, w2) →
          ∃ w1, run_stages Demo.py_float Demo.py_str Demo.abspath Demo.adapter 0
                  Demo.config (Demo.world_with Demo.three_sequences) = (Ok r, w1).
Proof.
  exact (second_run_executes_no_tool
           Demo.py_float Demo.py_str Demo.abspath Demo.adapter 0 Demo.config
           (Demo.world_with Demo.three_sequences) (Demo.run Demo.three_sequences).2
           demo_run_returns).
Defined.

Lemma constructed_pixel_spacing_has_three_fields_witness :
  ∃ spacing a b c x y z,
    Demo.config !! ("resampling", "pixel_spacing") = Some spacing ∧
    count_char "," spacing = 2 ∧
    Str.split_comma spacing = [a; b; c] ∧
    Demo.py_float a = Some x ∧ Demo.py_float b = Some y ∧ Demo.py_float c = Some z ∧
    _pixel_spacing Demo.context = [x; y; z].
Proof.
  exact (proj1 (constructed_pixel_spacing_has_three_fields Demo.py_float Demo.abspath)
           Demo.config (Demo.world_with ∅) demo_constructed Demo.context
           demo_init_returns).
Defined.

Lemma demo_resample_returns :
  resample Demo.py_str Demo.adapter Demo.context (PyStr "a.img") (Demo.world_with ∅)
  = (Ok (PyStr "resampled:a.img"), demo_resampled).
Proof.
  assert (H : (resample Demo.py_str Demo.adapter Demo.context (PyStr "a.img")
                 (Demo.world_with ∅)).1 = Ok (PyStr "resampled:a.img"))
    by (vm_compute; reflexivity).
  unfold demo_resampled.
  destruct (resample _ _ _ _ _) as [r w2]. simpl in *. by subst.
Qed.

Lemma stages_replay_from_cache_witness :
  resample Demo.py_str Demo.adapter Demo.context (PyStr "a.img") demo_resampled
  = (Ok (PyStr "resampled:a.img"), demo_resampled).
Proof.
  exact (proj1 (stages_replay_from_cache Demo.py_str Demo.adapter Demo.context
                  (PyStr "a.img") PyNone PyNone 0)
           (Demo.world_with ∅) (PyStr "resampled:a.img") demo_resampled
           demo_resample_returns demo_resampled (λ k o Hk, Hk) eq_refl).
Defined.







Lemma demo_pixel_spacing :
  Demo.config !! ("resampling", "pixel_spacing") = Some "1.0,1.0,3.0".
Proof. vm_compute; reflexivity. Qed.

Lemma demo_spacing_round_trip a x :
  a ∈ Str.split_comma "1.0,1.0,3.0" → Demo.py_float a = Some x → Demo.py_str x = a.
Proof.
  assert (Hs : Str.split_comma "1.0,1.0,3.0" = ["1.0"; "1.0"; "3.0"])
    by (vm_compute; reflexivity).
  rewrite Hs. intros Ha.
  repeat (apply elem_of_cons in Ha as [->|Ha]);
    try (by apply elem_of_nil in Ha); vm_compute; congruence.
Qed.

Lemma resample_passes_configured_spacing_witness :
  resample Demo.py_str Demo.adapter Demo.context (PyStr "a.img") (Demo.world_with ∅) =
  (result ← Memory_cache Demo.adapter (_mem Demo.context) MedpyResample
              (keywords [("in_file", ArgVal (PyStr "a.img"));
                         ("spacing", ArgVal (PyStr "1.0,1.0,3.0"))]);
   outputs_attr result "out_file") (Demo.world_with ∅).
Proof.
  exact (resample_passes_configured_spacing
           Demo.py_float Demo.py_str Demo.abspath Demo.adapter Demo.config
           (Demo.world_with ∅) demo_constructed Demo.context "1.0,1.0,3.0"
           (PyStr "a.img") (Demo.world_with ∅)
           demo_init_returns demo_pixel_spacing demo_spacing_round_trip).
Defined.
